(** * article-extractor: a shallow embedding of the extraction pipeline

    The development follows the Go packages of the repository:

    - [internal/dom]      text helpers and the view of the parsed tree,
    - [internal/keywords] white/black list classification,
    - [internal/scorer]   paragraph scores, the score map, propagation,
                          refinement and candidate selection,
    - [internal/cleaner]  the preprocessing sweep and the postprocessor,
    - [internal/metadata] title cleaning,
    - [extractor]         the orchestration of one extraction call.

    Conventions.
    - A Go [string] is modelled by the list of its code points ([rune]s, as
      [for _, r := range s] and [[]rune(s)] see them); [len(s)], which counts
      bytes, is [blen].
    - A Go [int] is a [Z]; every integer below is a length or a count.
    - A [float64] score is modelled by an exact rational [Q].  Paragraph scores
      are small integers and the shares handed to ancestors are multiples of
      1/2, which binary64 represents exactly; link densities are quotients of
      two lengths, compared against 0.5, 0.2 and 0.1.
    - A [*goquery.Selection] holding one node is the path of that node from
      the document root ([path]); two selections of the same node are the same
      path, which is how [ScoreMap.Get] compares them ([key.Get(0) == node]).
    - Go leaves the iteration order of a [map] unspecified; a [range] over the
      score map is modelled by an arbitrary permutation of its entries. *)

From Stdlib Require Import ZArith QArith Lia Lqa Bool.
From Stdlib Require Import Strings.String Strings.Ascii.
From Stdlib Require Import Sorting.Permutation.
From Stdlib Require Import Floats.PrimFloat.
From stdpp Require Import gmap list.

Local Open Scope Z_scope.

(* ===================================================================== *)
(** * Go strings as rune lists *)
(* ===================================================================== *)

Definition rune := Z.
Definition gostring := list rune.

(** An ASCII literal of the source as a rune list. *)
Definition runes (s : string) : gostring :=
  List.map (fun c => Z.of_N (N_of_ascii c)) (list_ascii_of_string s).

(** [utf8.RuneLen]: bytes taken by one code point. *)
Definition RuneLen (r : rune) : Z :=
  if r <? 128 then 1 else if r <? 2048 then 2 else if r <? 65536 then 3 else 4.

(** [len(s)] of a Go string: its length in bytes. *)
Definition blen (s : gostring) : Z :=
  List.fold_right (fun r n => RuneLen r + n) 0 s.

(** [len([]rune(s))] and [utf8.RuneCountInString(s)]. *)
Definition rlen (s : gostring) : Z := Z.of_nat (List.length s).

Definition rune_eqb (a b : rune) : bool := a =? b.

Fixpoint gostring_eqb (a b : gostring) : bool :=
  match a, b with
  | [], [] => true
  | x :: a', y :: b' => rune_eqb x y && gostring_eqb a' b'
  | _, _ => false
  end.

(** [strings.HasPrefix]. *)
Fixpoint HasPrefix (s prefix : gostring) : bool :=
  match prefix, s with
  | [], _ => true
  | p :: prefix', c :: s' => rune_eqb c p && HasPrefix s' prefix'
  | _ :: _, [] => false
  end.

(** [strings.Contains]. *)
Fixpoint Contains (s substr : gostring) : bool :=
  HasPrefix s substr ||
  match s with
  | [] => false
  | _ :: s' => Contains s' substr
  end.

(** The class [\s] of Go's regexp package: tab, newline, form feed, carriage
    return and space (no vertical tab, nothing outside ASCII). *)
Definition re_space (r : rune) : bool :=
  (r =? 9) || (r =? 10) || (r =? 12) || (r =? 13) || (r =? 32).

(** [unicode.IsSpace]. *)
Definition IsSpace (r : rune) : bool :=
  ((9 <=? r) && (r <=? 13)) || (r =? 32) || (r =? 133) || (r =? 160) ||
  (r =? 5760) || ((8192 <=? r) && (r <=? 8202)) || (r =? 8232) ||
  (r =? 8233) || (r =? 8239) || (r =? 8287) || (r =? 12288).

(** [whitespaceRegex.ReplaceAllString(text, " ")] for the pattern [\s+]:
    every maximal run of [\s] becomes one space.  [in_run] tells that the
    previous rune belonged to the run being replaced. *)
Fixpoint collapse_from (in_run : bool) (s : gostring) : gostring :=
  match s with
  | [] => []
  | c :: r =>
      if re_space c
      then (if in_run then collapse_from true r else 32 :: collapse_from true r)
      else c :: collapse_from false r
  end.

Definition collapse_ws (s : gostring) : gostring := collapse_from false s.

(** [strings.TrimLeftFunc(s, unicode.IsSpace)]. *)
Fixpoint trim_left (s : gostring) : gostring :=
  match s with
  | [] => []
  | c :: r => if IsSpace c then trim_left r else s
  end.

(** [strings.TrimSpace]. *)
Definition TrimSpace (s : gostring) : gostring :=
  List.rev (trim_left (List.rev (trim_left s))).

(** [dom.NormalizeText]. *)
Definition NormalizeText (text : gostring) : gostring :=
  TrimSpace (collapse_ws text).

(** [dom.CountCommas]: the ASCII comma and the fullwidth comma U+FF0C. *)
Fixpoint CountCommas (text : gostring) : Z :=
  match text with
  | [] => 0
  | r :: rest =>
      (if (r =? 44) || (r =? 65292) then 1 else 0) + CountCommas rest
  end.

(** The loop of [dom.CountWords] over the normalized text. *)
Fixpoint count_words_loop (inWord : bool) (count : Z) (text : gostring) : Z :=
  match text with
  | [] => if inWord then count + 1 else count
  | r :: rest =>
      if IsSpace r
      then (if inWord then count_words_loop false (count + 1) rest
            else count_words_loop inWord count rest)
      else count_words_loop true count rest
  end.

(** [dom.CountWords]. *)
Definition CountWords (text : gostring) : Z :=
  let text := NormalizeText text in
  match text with
  | [] => 0
  | _ => count_words_loop false 0 text
  end.

(* ===================================================================== *)
(** * The parsed tree *)
(* ===================================================================== *)

(** The nodes of [golang.org/x/net/html] that can occur below an element. *)
Inductive Node : Type :=
| TextNode (data : gostring)
| CommentNode (data : gostring)
| ElementNode (tag : string) (attr : list (string * gostring)) (children : list Node).

(** A parsed document: the children of the [html.DocumentNode]. *)
Record Document : Type := NewDocument { doc_children : list Node }.

(** A node is named by the child indices that lead to it from the root. *)
Abbreviation path := (list nat).

Definition is_element (n : Node) : bool :=
  match n with ElementNode _ _ _ => true | _ => false end.

(** [goquery.NodeName] of an element: its tag, lower-cased by the parser. *)
Definition GetTagName (n : Node) : string :=
  match n with ElementNode tag _ _ => tag | _ => EmptyString end.

Definition node_attr (n : Node) : list (string * gostring) :=
  match n with ElementNode _ attr _ => attr | _ => [] end.

Definition node_children (n : Node) : list Node :=
  match n with ElementNode _ _ kids => kids | _ => [] end.

(** [sel.Attr(name)]. *)
Fixpoint Attr (attr : list (string * gostring)) (name : string) : option gostring :=
  match attr with
  | [] => None
  | (k, v) :: rest => if String.eqb k name then Some v else Attr rest name
  end.

(** [dom.GetAttribute]: the value, or the empty string. *)
Definition GetAttribute (n : Node) (name : string) : gostring :=
  match Attr (node_attr n) name with Some v => v | None => [] end.

Section Forest.
Context {A : Type}.
Variable below : Node -> list A.
Variable here : nat -> Node -> list A.
Variable lift : nat -> A -> A.

(** The children of one node, left to right, each followed by what lies
    below it: document order. *)
Fixpoint walk_children (i : nat) (l : list Node) : list A :=
  match l with
  | [] => []
  | k :: r => here i k ++ List.map (lift i) (below k) ++ walk_children (S i) r
  end.

End Forest.

(** [sel.Text()]: the data of the text nodes below, in document order. *)
Fixpoint Text (n : Node) : gostring :=
  match n with
  | TextNode d => d
  | CommentNode _ => []
  | ElementNode _ _ kids =>
      (fix texts (l : list Node) : gostring :=
         match l with
         | [] => []
         | k :: r => Text k ++ texts r
         end) kids
  end.

Definition TextOfNodes (l : list Node) : gostring :=
  List.fold_right (fun k acc => Text k ++ acc) [] l.

(** [sel.Find("*")]: the elements strictly below a node, in document order,
    each with its path relative to that node. *)
Fixpoint elements_below (n : Node) : list (path * Node) :=
  match n with
  | ElementNode _ _ kids =>
      walk_children elements_below
        (fun i k => if is_element k then [([i], k)] else [])
        (fun i pn => (i :: fst pn, snd pn)) 0 kids
  | _ => []
  end.

(** [doc.Find("*")]. *)
Definition doc_elements (doc : Document) : list (path * Node) :=
  walk_children elements_below
    (fun i k => if is_element k then [([i], k)] else [])
    (fun i pn => (i :: fst pn, snd pn)) 0 (doc_children doc).

(** The node a path leads to. *)
Fixpoint node_at (l : list Node) (p : path) : option Node :=
  match p with
  | [] => None
  | i :: p' =>
      match List.nth_error l i with
      | None => None
      | Some n => match p' with [] => Some n | _ => node_at (node_children n) p' end
      end
  end.

(** [dom.GetText]. *)
Definition GetText (sel : Node) : gostring := NormalizeText (Text sel).

(** [dom.GetTextLength]. *)
Definition GetTextLength (sel : Node) : Z := rlen (GetText sel).

(* ===================================================================== *)
(** * internal/scorer: constants and the paragraph score *)
(* ===================================================================== *)

Definition HNewsBonus : Q := 80.
Definition ParagraphBaseScore : Z := 1.
Definition CommaBonus : Q := 1.
Definition LengthChunkSize : Z := 50.
Definition MaxLengthBonus : Z := 3.
Definition DivBonus : Q := 5.
Definition TdBlockquoteBonus : Q := 3.
Definition FormAddressPenalty : Q := (-3).
Definition ParentScoreProportion : Q := 1.
Definition GrandparentScoreProportion : Q := 1 # 2.
Definition LowWeightLinkDensityMax : Q := 2 # 10.
Definition HighWeightLinkDensityMax : Q := 5 # 10.

(** [float64(n)] of an [int]. *)
Definition float64 (n : Z) : Q := inject_Z n.

(** [scorer.ScoreParagraph]. *)
Definition ScoreParagraph (sel : Node) (minLength : Z) : Q :=
  let text := GetText sel in
  let textLen := rlen text in
  if textLen <? minLength then 0%Q
  else
    let score := float64 ParagraphBaseScore in
    let commas := CountCommas text in
    let score := (score + float64 commas * CommaBonus)%Q in
    let lengthBonus := Z.quot textLen LengthChunkSize in
    let lengthBonus := if lengthBonus >? MaxLengthBonus then MaxLengthBonus else lengthBonus in
    (score + float64 lengthBonus)%Q.

(** Comparisons of two [float64] values. *)
Definition Qgt_bool (a b : Q) : bool := negb (Qle_bool a b).
Definition Qlt_bool (a b : Q) : bool := negb (Qle_bool b a).

(* ===================================================================== *)
(** * internal/keywords *)
(* ===================================================================== *)

Definition whitelistKeywords : list string :=
  ["article"; "body"; "content"; "entry"; "main"; "page"; "post"; "text";
   "blog"; "story"; "hentry"; "h-entry"; "entry-content"; "article-body";
   "article-content"]%string.

Definition blacklistKeywords : list string :=
  ["ad"; "advertisement"; "banner"; "breadcrumbs"; "combx"; "comment";
   "community"; "cover-wrap"; "disqus"; "extra"; "footer"; "gdpr"; "header";
   "legends"; "menu"; "related"; "remark"; "replies"; "rss"; "shoutbox";
   "sidebar"; "skyscraper"; "social"; "sponsor"; "supplemental"; "widget";
   "agegate"; "pagination"; "pager"; "popup"; "print"; "archive";
   "author-info"; "author-box"; "bio"; "carousel"; "gallery"; "modal";
   "navigation"; "newsletter"; "promo"; "share"; "subscribe"; "tags";
   "toolbar"; "trending"; "dd-widget"; "deeperdive"; "ai-widget"; "chatbot";
   "ask-ai"; "genai"; "ai-assistant"; "ai-answer"]%string.

(** One literal rune [c] of a pattern compiled with [(?i)] against a rune [r]
    of the subject: the lower-case letter, its upper case, and the two
    non-ASCII runes that fold to an ASCII letter (the Kelvin sign for k, the
    long s for s). *)
Definition fold_eqb (c r : rune) : bool :=
  (r =? c) || ((97 <=? c) && (c <=? 122) && (r =? c - 32)) ||
  ((c =? 107) && (r =? 8490)) || ((c =? 115) && (r =? 383)).

Fixpoint HasPrefixFold (s prefix : gostring) : bool :=
  match prefix, s with
  | [], _ => true
  | p :: prefix', c :: s' => fold_eqb p c && HasPrefixFold s' prefix'
  | _ :: _, [] => false
  end.

Fixpoint ContainsFold (s substr : gostring) : bool :=
  HasPrefixFold s substr ||
  match s with
  | [] => false
  | _ :: s' => ContainsFold s' substr
  end.

(** [pattern.MatchString(s)] for the pattern [(?i)(k1|k2|...)] that
    [buildPattern] makes of a keyword list. *)
Definition MatchKeywords (keywords : list string) (s : gostring) : bool :=
  List.existsb (fun kw => ContainsFold s (runes kw)) keywords.

(** [keywords.IsWhitelisted]. *)
Definition IsWhitelisted (s : gostring) : bool :=
  match s with
  | [] => false
  | _ => MatchKeywords whitelistKeywords s
  end.

(** [keywords.IsBlacklisted]. *)
Definition IsBlacklisted (s : gostring) : bool :=
  match s with
  | [] => false
  | _ => MatchKeywords blacklistKeywords s
  end.

(** [keywords.GetWeight]. *)
Definition GetWeight (class id : gostring) : Z :=
  let weight := 0 in
  let weight :=
    match class with
    | [] => weight
    | _ =>
        let weight := if IsWhitelisted class then weight + 25 else weight in
        if IsBlacklisted class then weight - 25 else weight
    end in
  match id with
  | [] => weight
  | _ =>
      let weight := if IsWhitelisted id then weight + 25 else weight in
      if IsBlacklisted id then weight - 25 else weight
  end.

(* ===================================================================== *)
(** * internal/dom: link density *)
(* ===================================================================== *)

Definition has_tag (tag : string) (n : Node) : bool :=
  String.eqb (GetTagName n) tag.

(** [sel.Find(tag)] for a tag selector. *)
Definition FindTag (tag : string) (sel : Node) : list (path * Node) :=
  List.filter (fun pn => has_tag tag (snd pn)) (elements_below sel).

(** [dom.GetLinkTextLength]. *)
Definition GetLinkTextLength (sel : Node) : Z :=
  List.fold_left (fun totalLen s => totalLen + GetTextLength (snd s)) (FindTag "a" sel) 0.

(** [dom.CalculateLinkDensity]. *)
Definition CalculateLinkDensity (sel : Node) : Q :=
  let textLen := GetTextLength sel in
  if textLen =? 0 then 0%Q
  else
    let linkTextLen := GetLinkTextLength sel in
    (float64 linkTextLen / float64 textLen)%Q.

(* ===================================================================== *)
(** * internal/scorer: node scores and the score map *)
(* ===================================================================== *)

Record NodeScore : Type := mkNodeScore {
  Selection : path;
  ContentScore : Q;
  Weight : Z;
  LinkDensity : Q;
  TextLength : Z
}.

Definition NewNodeScore (sel : path) : NodeScore :=
  {| Selection := sel; ContentScore := 0; Weight := 0; LinkDensity := 0; TextLength := 0 |}.

Definition AddScore (ns : NodeScore) (score : Q) : NodeScore :=
  {| Selection := Selection ns; ContentScore := (ContentScore ns + score)%Q;
     Weight := Weight ns; LinkDensity := LinkDensity ns; TextLength := TextLength ns |}.

Definition SetScore (ns : NodeScore) (score : Q) : NodeScore :=
  {| Selection := Selection ns; ContentScore := score;
     Weight := Weight ns; LinkDensity := LinkDensity ns; TextLength := TextLength ns |}.

Definition GetScore (ns : NodeScore) : Q := ContentScore ns.

Definition GetWeightedScore (ns : NodeScore) : Q :=
  (ContentScore ns + float64 (Weight ns))%Q.

Definition SetWeight (ns : NodeScore) (weight : Z) : NodeScore :=
  {| Selection := Selection ns; ContentScore := ContentScore ns;
     Weight := weight; LinkDensity := LinkDensity ns; TextLength := TextLength ns |}.

Definition SetLinkDensity (ns : NodeScore) (density : Q) : NodeScore :=
  {| Selection := Selection ns; ContentScore := ContentScore ns;
     Weight := Weight ns; LinkDensity := density; TextLength := TextLength ns |}.

Definition SetTextLength (ns : NodeScore) (length : Z) : NodeScore :=
  {| Selection := Selection ns; ContentScore := ContentScore ns;
     Weight := Weight ns; LinkDensity := LinkDensity ns; TextLength := length |}.

(** [NodeScore.IsHighLinkDensity]. *)
Definition IsHighLinkDensity (ns : NodeScore) : bool :=
  if Weight ns >=? 0
  then Qgt_bool (LinkDensity ns) HighWeightLinkDensityMax
  else Qgt_bool (LinkDensity ns) LowWeightLinkDensityMax.

(** The score map, keyed by the node a selection holds. *)
Abbreviation ScoreMap := (gmap path NodeScore).

Definition NewScoreMap : ScoreMap := ∅.

(** [ScoreMap.Get]: the score of the node, a fresh one when there is none.
    The map is returned with it, since Go stores the fresh score. *)
Definition Get (sm : ScoreMap) (sel : path) : ScoreMap * NodeScore :=
  match sm !! sel with
  | Some score => (sm, score)
  | None => let ns := NewNodeScore sel in (<[sel := ns]> sm, ns)
  end.

(** [ScoreMap.GetOrNil]. *)
Definition GetOrNil (sm : ScoreMap) (sel : path) : option NodeScore := sm !! sel.

(** The orders in which [for _, ns := range sm.scores] may visit the map. *)
Definition range_of (sm : ScoreMap) (order : list NodeScore) : Prop :=
  Permutation order (List.map snd (map_to_list sm)).

(** [ScoreMap.GetTopCandidate], along one order of the [range] loop.  The
    state of the loop is the pair of [top] and [topScore]. *)
Definition top_step (st : option NodeScore * Q) (ns : NodeScore) : option NodeScore * Q :=
  let score := GetWeightedScore ns in
  if Qgt_bool score (snd st) then (Some ns, score) else st.

Definition GetTopCandidate (order : list NodeScore) : option NodeScore :=
  fst (List.fold_left top_step order (None, (-1)%Q)).

(** The two nested loops of [ScoreMap.GetCandidatesByScore]: for a fixed [i]
    the inner loop exchanges [candidates[i]] with every later entry of greater
    weighted score. *)
Fixpoint exchange_pass (ci : NodeScore) (later : list NodeScore) : NodeScore * list NodeScore :=
  match later with
  | [] => (ci, [])
  | cj :: rest =>
      if Qgt_bool (GetWeightedScore cj) (GetWeightedScore ci)
      then let '(m, rest') := exchange_pass cj rest in (m, ci :: rest')
      else let '(m, rest') := exchange_pass ci rest in (m, cj :: rest')
  end.

Fixpoint exchange_sort (n : nat) (candidates : list NodeScore) : list NodeScore :=
  match n, candidates with
  | S n', ci :: later =>
      let '(m, later') := exchange_pass ci later in m :: exchange_sort n' later'
  | _, _ => candidates
  end.

(** [ScoreMap.GetCandidatesByScore], along one order of the [range] loop. *)
Definition GetCandidatesByScore (order : list NodeScore) : list NodeScore :=
  exchange_sort (List.length order) order.

(** [scorer.GetTagScore]. *)
Definition GetTagScore (tag : string) : Q :=
  if String.eqb tag "div" then DivBonus
  else if String.eqb tag "td" then TdBlockquoteBonus
  else if String.eqb tag "blockquote" then TdBlockquoteBonus
  else if String.eqb tag "form" then FormAddressPenalty
  else if String.eqb tag "address" then FormAddressPenalty
  else 0%Q.

(** [sel.HasClass(class)] of goquery: tabs and line breaks of the class
    attribute count as spaces, and the class must be one of its tokens. *)
Definition HasClass (n : Node) (class : string) : bool :=
  let classes :=
    match Attr (node_attr n) "class" with
    | None => [32]
    | Some val =>
        List.map (fun r => if (r =? 9) || (r =? 13) || (r =? 10) then 32 else r)
          ([32] ++ val ++ [32])
    end in
  Contains classes ([32] ++ runes class ++ [32]).

(** [scorer.hasHNews]. *)
Definition hasHNews (sel : Node) : bool :=
  if HasClass sel "hentry" || HasClass sel "h-entry" then true
  else if HasClass sel "entry-content" then true
  else
    match Attr (node_attr sel) "itemtype" with
    | Some itemtype =>
        gostring_eqb itemtype (runes "http://schema.org/Article") ||
        gostring_eqb itemtype (runes "https://schema.org/Article") ||
        gostring_eqb itemtype (runes "http://schema.org/NewsArticle") ||
        gostring_eqb itemtype (runes "https://schema.org/NewsArticle")
    | None => false
    end.

(** [scorer.initializeNodeScore]. *)
Definition initializeNodeScore (ns : NodeScore) (sel : Node) : NodeScore :=
  let tag := GetTagName sel in
  let ns := AddScore ns (GetTagScore tag) in
  let class := GetAttribute sel "class" in
  let id := GetAttribute sel "id" in
  let weight := GetWeight class id in
  let ns := SetWeight ns weight in
  let ns := if hasHNews sel then AddScore ns HNewsBonus else ns in
  let linkDensity := CalculateLinkDensity sel in
  let ns := SetLinkDensity ns linkDensity in
  let textLen := GetTextLength sel in
  SetTextLength ns textLen.

(** The node of a selection of the document. *)
Definition doc_at (doc : Document) (sel : path) : option Node :=
  node_at (doc_children doc) sel.

(** [sel.Parent()]: the parent when it is an element; the document node,
    which is the parent of the top-level nodes, is none. *)
Definition Parent (doc : Document) (sel : path) : option (path * Node) :=
  match sel with
  | [] | [_] => None
  | _ =>
      let p := List.removelast sel in
      match doc_at doc p with
      | Some n => if is_element n then Some (p, n) else None
      | None => None
      end
  end.

(** [scorer.GetParagraphParent]. *)
Definition GetParagraphParent (doc : Document) (sel : path) : option (path * Node) :=
  Parent doc sel.

(** [scorer.GetParagraphGrandparent]. *)
Definition GetParagraphGrandparent (doc : Document) (sel : path) : option (path * Node) :=
  match Parent doc sel with
  | None => None
  | Some parent => Parent doc (fst parent)
  end.

(** One ancestor's share in [PropagateScores]: fetch its score, initialize it
    while its content score is zero, add the share. *)
Definition contribute (sm : ScoreMap) (ancestor : path * Node) (share : Q) : ScoreMap :=
  let '(sm, score) := Get sm (fst ancestor) in
  let score :=
    if Qeq_bool (ContentScore score) 0
    then initializeNodeScore score (snd ancestor)
    else score in
  <[fst ancestor := AddScore score share]> sm.

(** The body of the [Each] loop of [PropagateScores]. *)
Definition propagate_paragraph (doc : Document) (minParagraphLength : Z)
    (sm : ScoreMap) (sel : path * Node) : ScoreMap :=
  let paragraphScore := ScoreParagraph (snd sel) minParagraphLength in
  if Qeq_bool paragraphScore 0 then sm
  else
    let parent := GetParagraphParent doc (fst sel) in
    let grandparent := GetParagraphGrandparent doc (fst sel) in
    let sm :=
      match parent with
      | Some parent => contribute sm parent (paragraphScore * ParentScoreProportion)%Q
      | None => sm
      end in
    match grandparent with
    | Some grandparent =>
        contribute sm grandparent (paragraphScore * GrandparentScoreProportion)%Q
    | None => sm
    end.

(** [doc.Find("p, pre")]. *)
Definition FindParagraphs (doc : Document) : list (path * Node) :=
  List.filter (fun pn => has_tag "p" (snd pn) || has_tag "pre" (snd pn)) (doc_elements doc).

(** [scorer.PropagateScores]. *)
Definition PropagateScores (doc : Document) (sm : ScoreMap) (minParagraphLength : Z) : ScoreMap :=
  List.fold_left (propagate_paragraph doc minParagraphLength) (FindParagraphs doc) sm.

(** [scorer.ScoreAndPropagate]. *)
Definition ScoreAndPropagate (doc : Document) (minParagraphLength : Z) : ScoreMap :=
  PropagateScores doc NewScoreMap minParagraphLength.

(** The body of the loop of [RefineScores]. *)
Definition refine_score (ns : NodeScore) : NodeScore :=
  if IsHighLinkDensity ns
  then SetScore ns (ContentScore ns * (1 - LinkDensity ns))%Q
  else ns.

(** [scorer.RefineScores]: every entry is visited once and rewritten in
    place, so the order of the visit does not show. *)
Definition RefineScores (sm : ScoreMap) : ScoreMap := refine_score <$> sm.

(** [Scorer.Score]; [order] is the order in which [GetTopCandidate] ranges
    over the refined map. *)
Definition Score (doc : Document) (minParagraphLength : Z) (order : list NodeScore)
    : option NodeScore * ScoreMap :=
  let scoreMap := ScoreAndPropagate doc minParagraphLength in
  let scoreMap := RefineScores scoreMap in
  let topCandidate := GetTopCandidate order in
  (topCandidate, scoreMap).


(* ===================================================================== *)
(** * Removing elements while walking a selection *)
(* ===================================================================== *)

(** The loops [sel.Find(...).Each(func(_, s) { if ... { s.Remove() } })] and
    [sel.Find(...).Remove()] all have one shape.  [Find] lists the matching
    elements in document order before the first callback runs.  When the
    callback reaches an element, the elements visited before it are its
    ancestors and the elements of earlier subtrees, so nothing inside it has
    been touched: the test reads the subtree as it was before the loop.  An
    element inside a removed one goes with it, whatever its own test says.
    [remove_where] is therefore the tree without the elements whose test
    holds; [removes] is the test, on an element as it stands before the loop.
    The loop itself is [each_remove] below, and [each_remove_remove_where]
    shows that it leaves this tree. *)
Section RemoveWhere.
Variable removes : Node -> bool.
Variable walk : Node -> Node.

Fixpoint prune_children (l : list Node) : list Node :=
  match l with
  | [] => []
  | k :: r =>
      if is_element k && removes k then prune_children r
      else walk k :: prune_children r
  end.

End RemoveWhere.

Fixpoint remove_where (removes : Node -> bool) (sel : Node) : Node :=
  match sel with
  | ElementNode tag attr kids =>
      ElementNode tag attr (prune_children removes (remove_where removes) kids)
  | _ => sel
  end.

Definition remove_where_doc (removes : Node -> bool) (doc : Document) : Document :=
  NewDocument (prune_children removes (remove_where removes) (doc_children doc)).

(** The nodes met on the way to a selection, the selection itself last. *)
Fixpoint nodes_along (l : list Node) (p : path) : list Node :=
  match p with
  | [] => []
  | i :: p' =>
      match List.nth_error l i with
      | None => []
      | Some n => n :: nodes_along (node_children n) p'
      end
  end.

(** The proper ancestors of a selection, outermost first. *)
Definition ancestors (doc : Document) (sel : path) : list Node :=
  List.removelast (nodes_along (doc_children doc) sel).

(* ===================================================================== *)
(** * internal/cleaner: preprocessing *)
(* ===================================================================== *)

Definition removeTagsList : list string :=
  ["script"; "style"; "noscript"; "iframe"; "object"; "embed"; "applet"; "link"; "meta"]%string.

Definition unlikelyTags : list string :=
  ["footer"; "header"; "nav"; "aside"; "menu"; "menuitem"]%string.

(** [cleaner.RemoveUnwantedTags]. *)
Definition RemoveUnwantedTags (doc : Document) : Document :=
  List.fold_left (fun doc tag => remove_where_doc (has_tag tag) doc) removeTagsList doc.

(** The test of the first loop of [StripUnlikelyCandidates], for one tag. *)
Definition unlikely_tag_removes (tag : string) (sel : Node) : bool :=
  has_tag tag sel &&
  negb (IsWhitelisted (GetAttribute sel "class") || IsWhitelisted (GetAttribute sel "id")).

(** The test of the second loop of [StripUnlikelyCandidates]: the blacklist
    sweep. *)
Definition blacklist_removes (sel : Node) : bool :=
  let tag := GetTagName sel in
  if String.eqb tag "body" || String.eqb tag "html" ||
     String.eqb tag "article" || String.eqb tag "main"
  then false
  else
    let class := GetAttribute sel "class" in
    let id := GetAttribute sel "id" in
    let combined := class ++ [32] ++ id in
    if IsWhitelisted combined then false
    else if IsBlacklisted combined then
      let textLen := GetTextLength sel in
      let linkDensity := CalculateLinkDensity sel in
      (textLen <? 200) || Qgt_bool linkDensity (5 # 10)
    else false.

(** The second loop of [StripUnlikelyCandidates]. *)
Definition blacklist_sweep (doc : Document) : Document :=
  remove_where_doc blacklist_removes doc.

(** [cleaner.StripUnlikelyCandidates]. *)
Definition StripUnlikelyCandidates (doc : Document) : Document :=
  let doc :=
    List.fold_left (fun doc tag => remove_where_doc (unlikely_tag_removes tag) doc)
      unlikelyTags doc in
  blacklist_sweep doc.

(* ===================================================================== *)
(** * Rendering, as [golang.org/x/net/html] does it *)
(* ===================================================================== *)

(** [html.EscapeString] as [render] uses it for text and attribute values. *)
Definition escape_rune (r : rune) : gostring :=
  if r =? 38 then runes "&amp;"
  else if r =? 39 then runes "&#39;"
  else if r =? 60 then runes "&lt;"
  else if r =? 62 then runes "&gt;"
  else if r =? 34 then runes "&#34;"
  else if r =? 13 then runes "&#13;"
  else [r].

Definition escape (s : gostring) : gostring := List.flat_map escape_rune s.

(** [escapeComment]: an ampersand is always escaped, a [>] only at the start
    of the data or after [!] or [-]. *)
Fixpoint escapeComment_from (prev : option rune) (s : gostring) : gostring :=
  match s with
  | [] => []
  | c :: r =>
      (if c =? 38 then runes "&amp;"
       else if c =? 62 then
         match prev with
         | Some p => if (p =? 33) || (p =? 45) then runes "&gt;" else [c]
         | None => runes "&gt;"
         end
       else [c]) ++ escapeComment_from (Some c) r
  end.

Definition escapeComment (s : gostring) : gostring := escapeComment_from None s.

Definition voidElements : list string :=
  ["area"; "base"; "br"; "col"; "embed"; "hr"; "img"; "input"; "keygen";
   "link"; "meta"; "param"; "source"; "track"; "wbr"]%string.

Definition isVoidElement (tag : string) : bool :=
  List.existsb (String.eqb tag) voidElements.

(** [childTextNodesAreLiteral]. *)
Definition childTextNodesAreLiteral (tag : string) : bool :=
  List.existsb (String.eqb tag)
    ["iframe"; "noembed"; "noframes"; "noscript"; "plaintext"; "script"; "style"; "xmp"]%string.

Definition render_attr (a : string * gostring) : gostring :=
  [32] ++ runes (fst a) ++ [61; 34] ++ escape (snd a) ++ [34].

Definition render_attrs (attr : list (string * gostring)) : gostring :=
  List.flat_map render_attr attr.

(** The line feed [render] adds after the start tag of [pre], [listing] and
    [textarea] when the first child is a text that starts with one. *)
Definition leading_newline (tag : string) (kids : list Node) : gostring :=
  if String.eqb tag "pre" || String.eqb tag "listing" || String.eqb tag "textarea"
  then match kids with
       | TextNode (10 :: _) :: _ => [10]
       | _ => []
       end
  else [].

(** [html.Render] of one node.  Not modelled: namespaces, and the end of the
    output after a [plaintext] element, which the parser puts last. *)
Fixpoint render (n : Node) : gostring :=
  match n with
  | TextNode d => escape d
  | CommentNode d => runes "<!--" ++ escapeComment d ++ runes "-->"
  | ElementNode tag attr kids =>
      [60] ++ runes tag ++ render_attrs attr ++
      (if isVoidElement tag then runes "/>"
       else
         [62] ++ leading_newline tag kids ++
         (fix render_kids (l : list Node) : gostring :=
            match l with
            | [] => []
            | k :: r =>
                (match k with
                 | TextNode d => if childTextNodesAreLiteral tag then d else escape d
                 | _ => render k
                 end) ++ render_kids r
            end) kids ++
         runes "</" ++ runes tag ++ [62])
  end.

(** [sel.Html()]: the children of the node, rendered one after the other. *)
Definition Html (sel : Node) : gostring :=
  List.flat_map render (node_children sel).

(** [tagRegex.ReplaceAllString(html, "")] for the pattern [<[^>]*>]: from a
    [<], everything up to the next [>] goes; a [<] with no [>] after it stays,
    with what follows it.  [pending] holds, reversed, what has been read since
    the [<] that may open a match. *)
Fixpoint strip_tags_from (pending : option gostring) (s : gostring) : gostring :=
  match s with
  | [] => match pending with Some buf => List.rev buf | None => [] end
  | c :: r =>
      match pending with
      | None => if c =? 60 then strip_tags_from (Some [c]) r else c :: strip_tags_from None r
      | Some buf => if c =? 62 then strip_tags_from None r else strip_tags_from (Some (c :: buf)) r
      end
  end.

Definition strip_tags (html : gostring) : gostring := strip_tags_from None html.

(** [s == ""]. *)
Definition is_empty (s : gostring) : bool :=
  match s with [] => true | _ => false end.

(* ===================================================================== *)
(** * internal/cleaner: postprocessing *)
(* ===================================================================== *)

(** [cleaner.isOnlyWhitespace]. *)
Definition isOnlyWhitespace (html : gostring) : bool :=
  let text := strip_tags html in
  is_empty (TrimSpace text).

Definition unwantedPatterns : list string :=
  ["share"; "social"; "comment"; "related"; "recommend"; "newsletter";
   "subscribe"; "promo"; "ad-"; "advertisement"]%string.

(** The selector [[class*='pattern'], [id*='pattern']]. *)
Definition matches_pattern (pattern : string) (sel : Node) : bool :=
  match Attr (node_attr sel) "class" with
  | Some v => Contains v (runes pattern)
  | None => false
  end ||
  match Attr (node_attr sel) "id" with
  | Some v => Contains v (runes pattern)
  | None => false
  end.

(** The test of the empty-link loop of [RemoveUnwantedFromContent]. *)
Definition empty_link (a : Node) : bool :=
  has_tag "a" a &&
  (let text := TrimSpace (Text a) in
   is_empty text && (List.length (FindTag "img" a) =? 0)%nat).

(** [cleaner.RemoveUnwantedFromContent]. *)
Definition RemoveUnwantedFromContent (sel : Node) : Node :=
  let sel :=
    remove_where (fun n => has_tag "script" n || has_tag "style" n || has_tag "noscript" n) sel in
  let sel :=
    List.fold_left (fun sel pattern => remove_where (matches_pattern pattern) sel)
      unwantedPatterns sel in
  remove_where empty_link sel.

(** [allowedAttributes[tag]]; the entry for ["*"] is empty. *)
Definition allowedAttributes (tag : string) : list string :=
  if String.eqb tag "a" then ["href"; "title"]%string
  else if String.eqb tag "img" then ["src"; "alt"; "title"; "width"; "height"]%string
  else [].

(** [removeAttr] of goquery: the first attribute of that name is overwritten
    by the last attribute, and the slice loses its last entry. *)
Fixpoint removeAttr (attr : list (string * gostring)) (attrName : string)
    : list (string * gostring) :=
  match attr with
  | [] => []
  | a :: rest =>
      if String.eqb (fst a) attrName
      then match rest with
           | [] => []
           | _ => List.last rest a :: List.removelast rest
           end
      else a :: removeAttr rest attrName
  end.

(** The body of the loop of [CleanAttributes], on the attributes of one
    element. *)
Definition clean_attr (tag : string) (attr : list (string * gostring))
    : list (string * gostring) :=
  let allowedForTag := allowedAttributes tag in
  let allowedForAll := allowedAttributes "*" in
  let attrsToRemove :=
    List.map fst
      (List.filter
         (fun a => negb (List.existsb (String.eqb (fst a)) allowedForTag ||
                         List.existsb (String.eqb (fst a)) allowedForAll))
         attr) in
  List.fold_left removeAttr attrsToRemove attr.

(** One element and what is below it, in [CleanAttributes]. *)
Fixpoint clean_node (n : Node) : Node :=
  match n with
  | ElementNode tag attr kids => ElementNode tag (clean_attr tag attr) (List.map clean_node kids)
  | _ => n
  end.

(** [cleaner.CleanAttributes]: [sel.Find("*")] does not hold [sel] itself. *)
Definition CleanAttributes (sel : Node) : Node :=
  match sel with
  | ElementNode tag attr kids => ElementNode tag attr (List.map clean_node kids)
  | _ => sel
  end.

(** The test of the loop of [RemoveEmptyElements]. *)
Definition empty_element (el : Node) : bool :=
  let tag := GetTagName el in
  if String.eqb tag "br" || String.eqb tag "hr" || String.eqb tag "img" then false
  else
    let text := TrimSpace (Text el) in
    let html := Html el in
    let html := TrimSpace html in
    is_empty text && (is_empty html || isOnlyWhitespace html).

(** [cleaner.RemoveEmptyElements]: three rounds of one loop. *)
Definition RemoveEmptyElements (sel : Node) : Node :=
  remove_where empty_element (remove_where empty_element (remove_where empty_element sel)).

(** [cleaner.Postprocess]. *)
Definition Postprocess (sel : Node) : Node :=
  let sel := RemoveUnwantedFromContent sel in
  let sel := CleanAttributes sel in
  RemoveEmptyElements sel.

(** [cleaner.GetCleanHTML]. *)
Definition GetCleanHTML (sel : Node) : gostring := TrimSpace (Html sel).

(* ===================================================================== *)
(** * internal/dom: clean text, excerpt *)
(* ===================================================================== *)

(** [strings.Split(text, "\n")]. *)
Fixpoint SplitLines (text : gostring) : list gostring :=
  match text with
  | [] => [[]]
  | c :: r =>
      if c =? 10 then [] :: SplitLines r
      else match SplitLines r with
           | [] => [[c]]
           | line :: lines => (c :: line) :: lines
           end
  end.

(** [strings.Join(lines, "\n")]. *)
Fixpoint JoinLines (lines : list gostring) : gostring :=
  match lines with
  | [] => []
  | [line] => line
  | line :: rest => line ++ [10] ++ JoinLines rest
  end.

(** [newlineRegex.ReplaceAllString(text, "\n\n")] for the pattern [\n{3,}]:
    of a run of line feeds the first two stay. *)
Fixpoint squeeze_newlines (seen : nat) (text : gostring) : gostring :=
  match text with
  | [] => []
  | c :: r =>
      if c =? 10
      then (if (seen <? 2)%nat then c :: squeeze_newlines (S seen) r
            else squeeze_newlines seen r)
      else c :: squeeze_newlines 0 r
  end.

(** [dom.NormalizeTextPreserveNewlines]. *)
Definition NormalizeTextPreserveNewlines (text : gostring) : gostring :=
  let lines := SplitLines text in
  let lines := List.map (fun line => TrimSpace (collapse_ws line)) lines in
  let text := JoinLines lines in
  let text := squeeze_newlines 0 text in
  TrimSpace text.

(** [cleaner.GetCleanText]. *)
Definition GetCleanText (sel : Node) : gostring :=
  NormalizeTextPreserveNewlines (Text sel).

(** The greatest index in [lo, lo + n) whose rune satisfies [P]: the loops
    [for i := maxLength - 1; i >= maxLength/2; i--] of [GetExcerpt]. *)
Fixpoint find_down (P : rune -> bool) (text : gostring) (lo n : nat) : option nat :=
  match n with
  | O => None
  | S k =>
      if P (List.nth (lo + k) text 0) then Some (lo + k)%nat
      else find_down P text lo k
  end.

(** [dom.GetExcerpt], for a [maxLength] of at least 3. *)
Definition GetExcerpt (text : gostring) (maxLength : nat) : gostring :=
  let text := NormalizeText text in
  if (List.length text <=? maxLength)%nat then text
  else
    let lo := Nat.div maxLength 2 in
    match find_down (fun r => (r =? 46) || (r =? 12290)) text lo (maxLength - lo) with
    | Some i => List.firstn (i + 1) text
    | None =>
        match find_down IsSpace text lo (maxLength - lo) with
        | Some i => List.firstn i text ++ runes "..."
        | None => List.firstn (maxLength - 3) text ++ runes "..."
        end
    end.

(* ===================================================================== *)
(** * internal/metadata: the title *)
(* ===================================================================== *)

Definition titleSeparators : list gostring :=
  [runes " | "; runes " - "; runes " :: "; runes " / ";
   [32; 187; 32]; [32; 8212; 32]; [32; 183; 32]].

(** [idx := strings.LastIndex(title, sep)] with [title[:idx]] and
    [title[idx+len(sep):]]: the two sides of the last occurrence of [sep]. *)
Fixpoint split_last (title sep : gostring) : option (gostring * gostring) :=
  match title with
  | [] => if HasPrefix title sep then Some ([], List.skipn (List.length sep) title) else None
  | c :: rest =>
      match split_last rest sep with
      | Some (before, after) => Some (c :: before, after)
      | None =>
          if HasPrefix title sep then Some ([], List.skipn (List.length sep) title) else None
      end
  end.

(** The body of the loop of [cleanTitle], for one separator. *)
Definition clean_separator (title sep : gostring) : gostring :=
  match split_last title sep with
  | Some (before, after) =>
      if blen before >? blen after * 2 then TrimSpace before
      else if blen after >? blen before * 2 then TrimSpace after
      else title
  | None => title
  end.

(** [metadata.cleanTitle]. *)
Definition cleanTitle (title : gostring) : gostring :=
  let title := TrimSpace title in
  let title := collapse_ws title in
  List.fold_left clean_separator titleSeparators title.

(** [strings.Fields]: the maximal runs of runes that are not white space.
    [cur] holds the field being read, reversed. *)
Fixpoint fields_from (cur : gostring) (s : gostring) : list gostring :=
  match s with
  | [] => match cur with [] => [] | _ => [List.rev cur] end
  | c :: r =>
      if IsSpace c
      then match cur with
           | [] => fields_from [] r
           | _ => List.rev cur :: fields_from [] r
           end
      else fields_from (c :: cur) r
  end.

Definition Fields (s : gostring) : list gostring := fields_from [] s.

(* ===================================================================== *)
(** * extractor *)
(* ===================================================================== *)

Inductive error : Type :=
| ErrNoContent
| ErrInvalidHTML
| ErrContentTooShort
| ErrHTTPRequest
| ErrInvalidURL
| ErrContentTooLarge
| ErrTimeout.

Record ExtractionError : Type := NewExtractionError {
  Op : string;
  URL : gostring;
  Err : error
}.

Record Image : Type := mkImage {
  ImageURL : gostring;
  Width : Z;
  Height : Z;
  Alt : gostring
}.

Record Config : Type := mkConfig {
  MinContentLength : Z;
  MinParagraphLength : Z;
  Debug : bool
}.

(** [DefaultConfig], for the options the pipeline reads. *)
Definition DefaultConfig : Config :=
  {| MinContentLength := 100; MinParagraphLength := 25; Debug := false |}.

(** The arithmetic of [calculateConfidence], over any carrier of the sum:
    the constants 0.0, 0.1, 0.2, 0.3, 0.4 and 1.0, addition, and [>]. *)
Section Confidence.
Context {F : Type}.
Variables (c0 c01 c02 c03 c04 c1 : F).
Variable add : F -> F -> F.
Variable gtb : F -> F -> bool.

(** [Extractor.calculateConfidence]; [order] is the order in which
    [GetCandidatesByScore] ranges over the score map. *)
Definition calculateConfidence_in (topCandidate : NodeScore) (order : list NodeScore)
    (wordCount : Z) : F :=
  let confidence := c0 in
  let score := GetScore topCandidate in
  let confidence :=
    if Qgt_bool score 100 then add confidence c04
    else if Qgt_bool score 50 then add confidence c03
    else if Qgt_bool score 20 then add confidence c02
    else add confidence c01 in
  let confidence :=
    if wordCount >? 500 then add confidence c03
    else if wordCount >? 200 then add confidence c02
    else if wordCount >? 100 then add confidence c01
    else confidence in
  let confidence :=
    if Qlt_bool (LinkDensity topCandidate) (1 # 10) then add confidence c02
    else if Qlt_bool (LinkDensity topCandidate) (2 # 10) then add confidence c01
    else confidence in
  let candidates := GetCandidatesByScore order in
  let confidence :=
    match candidates with
    | _ :: second :: _ =>
        let secondScore := GetScore second in
        if Qgt_bool score (secondScore * 2) then add confidence c01 else confidence
    | _ => confidence
    end in
  if gtb confidence c1 then c1 else confidence.

End Confidence.

(** The sum in exact arithmetic. *)
Definition calculateConfidence : NodeScore -> list NodeScore -> Z -> Q :=
  calculateConfidence_in 0%Q (1 # 10)%Q (2 # 10)%Q (3 # 10)%Q (4 # 10)%Q 1%Q Qplus Qgt_bool.

(** The sum in binary64; the constants are 0.1, 0.2, 0.3 and 0.4 rounded to
    the nearest binary64 value, as the Go compiler rounds them. *)
Definition calculateConfidence_binary64 : NodeScore -> list NodeScore -> Z -> float :=
  calculateConfidence_in 0%float 0x1.999999999999ap-4%float 0x1.999999999999ap-3%float
    0x1.3333333333333p-2%float 0x1.999999999999ap-2%float 1%float
    PrimFloat.add (fun a b => PrimFloat.ltb b a).

Record Article (Time : Type) : Type := mkArticle {
  Title : gostring;
  Content : gostring;
  TextContent : gostring;
  Excerpt : gostring;
  Author : gostring;
  PublishedAt : option Time;
  LeadImage : option Image;
  ArticleURL : gostring;
  WordCount : Z;
  ArticleScore : Q;
  Confidence : Q
}.

Arguments mkArticle {Time}.
Arguments Title {Time}.
Arguments Content {Time}.
Arguments TextContent {Time}.
Arguments Excerpt {Time}.
Arguments Author {Time}.
Arguments PublishedAt {Time}.
Arguments LeadImage {Time}.
Arguments ArticleURL {Time}.
Arguments WordCount {Time}.
Arguments ArticleScore {Time}.
Arguments Confidence {Time}.

Section Extractor.

(** [time.Time]. *)
Variable Time : Type.

(** The strategies of [metadata.ExtractTitle], each a query of the document
    that yields the empty string when it finds nothing. *)
Variable getMetaContent : Document -> string -> gostring.
Variable getSchemaHeadline : Document -> gostring.
Variable getArticleH1 : Document -> gostring.
Variable getFirstH1 : Document -> gostring.
Variable getTitleTag : Document -> gostring.

(** [metadata.ExtractAuthor], [metadata.ExtractDate] and
    [Extractor.extractLeadImage]: the empty string, [nil] and [nil] stand for
    nothing found. *)
Variable ExtractAuthor : Document -> gostring.
Variable ExtractDate : Document -> option Time.
Variable extractLeadImage : Document -> gostring -> option Image.

(** The steps of [cleaner.Preprocess] that rewrite markup through
    [SetHtml], or match it against regular expressions of their own. *)
Variable RemoveHiddenElements : Document -> Document.
Variable RemoveKnownWidgets : Document -> Document.
Variable ConvertDataArticleBodyToParagraphs : Document -> Document.
Variable ConvertToParagraphs : Document -> Document.

(** [cleaner.MergeSiblings]: the content selection for a candidate, its raw
    score and the minimal paragraph length; [contentSel.Clone()] is its node. *)
Variable MergeSiblings : Document -> path -> Q -> Z -> Node.

(** [cleaner.ConvertRelativeURLs]. *)
Variable ConvertRelativeURLs : Node -> gostring -> Node.

Variable config : Config.

(** [metadata.ExtractTitle]. *)
Definition ExtractTitle (doc : Document) : gostring :=
  let title := getMetaContent doc "og:title" in
  if negb (is_empty title) then cleanTitle title
  else
    let title := getMetaContent doc "twitter:title" in
    if negb (is_empty title) then cleanTitle title
    else
      let title := getSchemaHeadline doc in
      if negb (is_empty title) then cleanTitle title
      else
        let title := getArticleH1 doc in
        if negb (is_empty title) then cleanTitle title
        else
          let title := getFirstH1 doc in
          if negb (is_empty title) then cleanTitle title
          else
            let title := getTitleTag doc in
            if negb (is_empty title) then cleanTitle title
            else [].

(** [cleaner.Preprocess]. *)
Definition Preprocess (doc : Document) : Document :=
  let doc := RemoveUnwantedTags doc in
  let doc := RemoveHiddenElements doc in
  let doc := RemoveKnownWidgets doc in
  let doc := StripUnlikelyCandidates doc in
  let doc := ConvertDataArticleBodyToParagraphs doc in
  ConvertToParagraphs doc.

(** [Extractor.extractFromDocument].  [order1] is the order in which
    [GetTopCandidate] ranges over the score map and [order2] the order in
    which [GetCandidatesByScore] does.  A score of the map always holds its
    selection, so the test [topCandidate.Selection == nil] never fires. *)
Definition extractFromDocument (doc : Document) (baseURL : gostring)
    (order1 order2 : list NodeScore) : Article Time + ExtractionError :=
  let title := ExtractTitle doc in
  let author := ExtractAuthor doc in
  let publishedAt := ExtractDate doc in
  let leadImage := extractLeadImage doc baseURL in
  let doc := Preprocess doc in
  let '(topCandidate, scoreMap) := Score doc (MinParagraphLength config) order1 in
  match topCandidate with
  | None => inr (NewExtractionError "extract" baseURL ErrNoContent)
  | Some topCandidate =>
      let contentSel :=
        MergeSiblings doc (Selection topCandidate) (GetScore topCandidate)
          (MinParagraphLength config) in
      let contentClone := contentSel in
      let contentClone := Postprocess contentClone in
      let contentClone :=
        if negb (is_empty baseURL) then ConvertRelativeURLs contentClone baseURL
        else contentClone in
      let contentHTML := GetCleanHTML contentClone in
      let textContent := GetCleanText contentClone in
      if blen textContent <? MinContentLength config
      then inr (NewExtractionError "validate" baseURL ErrContentTooShort)
      else
        let wordCount := CountWords textContent in
        let confidence := calculateConfidence topCandidate order2 wordCount in
        let excerpt := GetExcerpt textContent 200 in
        inl {| Title := title;
               Content := contentHTML;
               TextContent := textContent;
               Excerpt := excerpt;
               Author := author;
               PublishedAt := publishedAt;
               LeadImage := leadImage;
               ArticleURL := baseURL;
               WordCount := wordCount;
               ArticleScore := GetScore topCandidate;
               Confidence := confidence |}
  end.

(** The score map of one call: what [s.Score(doc)] builds on the
    preprocessed document. *)
Definition call_score_map (doc : Document) : ScoreMap :=
  RefineScores (ScoreAndPropagate (Preprocess doc) (MinParagraphLength config)).

End Extractor.

(* ===================================================================== *)
(** * Documents and an instance of the pipeline for the examples *)
(* ===================================================================== *)

Definition el (tag : string) (attr : list (string * string)) (kids : list Node) : Node :=
  ElementNode tag (List.map (fun a => (fst a, runes (snd a))) attr) kids.

Definition txt (s : string) : Node := TextNode (runes s).

(** The node of a selection, for a selection of the document. *)
Definition sel_node (doc : Document) (sel : path) : Node :=
  match doc_at doc sel with Some n => n | None => TextNode [] end.

(** The pipeline with no metadata found, the open preprocessing steps doing
    nothing and no sibling merged, under the default configuration. *)
Definition plain_extract (doc : Document) (baseURL : gostring)
    (order1 order2 : list NodeScore) : Article unit + ExtractionError :=
  extractFromDocument unit (fun _ _ => []) (fun _ => []) (fun _ => []) (fun _ => [])
    (fun _ => []) (fun _ => []) (fun _ => None) (fun _ _ => None)
    (fun d => d) (fun d => d) (fun d => d) (fun d => d)
    (fun d sel _ _ => sel_node d sel) (fun n _ => n) DefaultConfig
    doc baseURL order1 order2.

Definition plain_score_map (doc : Document) : ScoreMap :=
  call_score_map (fun d => d) (fun d => d) (fun d => d) (fun d => d) DefaultConfig doc.

(** [<html><body><div><p>..</p></div><div><p>..</p></div></body></html>] *)
Definition doc_two_divs : Document :=
  NewDocument
    [el "html" []
       [el "body" []
          [el "div" [] [el "p" [] [txt "The first paragraph of the page."]];
           el "div" [] [el "p" [] [txt "Another paragraph of that page."]]]]].


(** [<html><body><article><p>..</p><p>..</p><p>..</p></article></body></html>] *)
Definition doc_article : Document :=
  NewDocument
    [el "html" []
       [el "body" []
          [el "article" []
             [el "p" [] [txt "This is the first paragraph, with enough content to be scored."];
              el "p" [] [txt "This is the second paragraph, with more meaningful content."];
              el "p" [] [txt "This is the third paragraph, which completes the article."]]]]].


(** The score map after the paragraphs of [paragraphs] have been handled,
    starting from [sm]: the state of the loop of [PropagateScores]. *)
Definition propagate_over (doc : Document) (minParagraphLength : Z)
    (paragraphs : list (path * Node)) (sm : ScoreMap) : ScoreMap :=
  List.fold_left (propagate_paragraph doc minParagraphLength) paragraphs sm.


(** A form with two paragraphs, the first of score 3 and the second of
    score 1. *)
Definition doc_form_twice : Document :=
  NewDocument
    [el "html" []
       [el "body" []
          [el "form" []
             [el "p" [] [txt "Please leave your name and your address with us so that we can send you the forms that you will need next week"];
              el "p" [] [txt "Please leave your name with us"]]]]].

(** The text [class + " " + id] that the blacklist sweep classifies. *)
Definition combined_class_id (sel : Node) : gostring :=
  GetAttribute sel "class" ++ [32] ++ GetAttribute sel "id".

(** Fifty words of five letters: 299 code points once normalized. *)
Definition long_text : gostring := List.concat (List.repeat (runes "words ") 50).

(** A link-heavy [div class="sidebar"] that holds a long [div class="comment"]
    without links:
    [<html><body><div class="sidebar"><a>..</a><a>..</a><div class="comment">..</div></div></body></html>] *)
Definition doc_nested_blocks : Document :=
  NewDocument
    [el "html" []
       [el "body" []
          [el "div" [("class", "sidebar")%string]
             [el "a" [("href", "/one")%string] [TextNode long_text];
              el "a" [("href", "/two")%string] [TextNode long_text];
              el "div" [("class", "comment")%string] [TextNode long_text]]]]].

(** A long [div class="sidebar"] without links, directly in the body. *)
Definition doc_long_block : Document :=
  NewDocument
    [el "html" []
       [el "body" [] [el "div" [("class", "sidebar")%string] [TextNode long_text]]]].


(* ===================================================================== *)
(** * Content on which text and markup agree about emptiness *)
(* ===================================================================== *)



(** [Q] holds of every element strictly below a node. *)
Fixpoint under (Q : Node -> Prop) (n : Node) : Prop :=
  match n with
  | ElementNode _ _ kids =>
      (fix all (l : list Node) : Prop :=
         match l with
         | [] => True
         | k :: r => (is_element k = true -> Q k) /\ under Q k /\ all r
         end) kids
  | _ => True
  end.

(** The runes of a text that are not white space. *)
Definition nonws (s : gostring) : gostring :=
  List.filter (fun r => negb (IsSpace r)) s.









(* ===================================================================== *)
(** * Notions used in the proofs *)
(* ===================================================================== *)

(** What the loop of [GetTopCandidate] knows after a prefix of the order:
    the running score bounds every entry seen, and the candidate held, if any,
    is the first entry seen that reaches it. *)
Definition top_inv (seen : list NodeScore) (st : option NodeScore * Q) : Prop :=
  (forall x, In x seen -> (GetWeightedScore x <= snd st)%Q) /\
  match fst st with
  | None => snd st = (-1)%Q
  | Some ns =>
      snd st = GetWeightedScore ns /\ (-1 < snd st)%Q /\
      exists before after : list NodeScore,
        seen = before ++ ns :: after /\
        (forall x, In x before -> (GetWeightedScore x < GetWeightedScore ns)%Q)
  end.






(* ===================================================================== *)
(** * The removing loops, step by step *)
(* ===================================================================== *)

(** [Find] hands the callback the elements it found, in document order; the
    callback reads an element as it stands when its turn comes, and [Remove]
    detaches it from its parent.  The elements are named by their paths in the
    tree [Find] saw; the state of the loop is the list of the paths detached so
    far. *)

(** The paths among [removed] that lead into child [i], from that child on. *)
Definition strip_index (i : nat) (removed : list path) : list path :=
  List.flat_map
    (fun q => match q with
              | j :: q' => if Nat.eqb j i then [q'] else []
              | [] => []
              end) removed.

(** The paths among [removed] that lead into the node at [p], from there on. *)
Definition strip_path (p : path) (removed : list path) : list path :=
  List.fold_left (fun r i => strip_index i r) p removed.

(** One of the paths names the node itself. *)
Definition holds_root (removed : list path) : bool :=
  List.existsb (fun q => match q with [] => true | _ => false end) removed.

Section Detach.
Variable detach : list path -> Node -> Node.

Fixpoint detach_children (removed : list path) (i : nat) (l : list Node) : list Node :=
  match l with
  | [] => []
  | k :: r =>
      if holds_root (strip_index i removed) then detach_children removed (S i) r
      else detach (strip_index i removed) k :: detach_children removed (S i) r
  end.

End Detach.

(** A node as it stands when the nodes at [removed], paths from this node,
    have been detached. *)
Fixpoint detach (removed : list path) (n : Node) : Node :=
  match n with
  | ElementNode tag attr kids => ElementNode tag attr (detach_children detach removed 0 kids)
  | _ => n
  end.

(** One turn of the callback: the element found at [fst s] was [snd s]. *)
Definition each_step (removes : Node -> bool) (removed : list path) (s : path * Node)
    : list path :=
  if removes (detach (strip_path (fst s) removed) (snd s))
  then removed ++ [fst s]
  else removed.

(** [sel.Find("*").Each(func(_, s) { if removes(s) { s.Remove() } })]. *)
Definition each_remove (removes : Node -> bool) (sel : Node) : Node :=
  detach (List.fold_left (each_step removes) (elements_below sel) []) sel.

(** The same loop on a document. *)
Definition each_remove_doc (removes : Node -> bool) (doc : Document) : Document :=
  NewDocument
    (detach_children detach
       (List.fold_left (each_step removes) (doc_elements doc) []) 0 (doc_children doc)).

(** The paths the loop detaches, told from the tree: an element is detached
    when its test holds of it as [Find] saw it. *)
Fixpoint marks (removes : Node -> bool) (n : Node) : list path :=
  match n with
  | ElementNode _ _ kids =>
      walk_children (marks removes)
        (fun i k => if is_element k && removes k then [[i]] else [])
        (fun i q => i :: q) 0 kids
  | _ => []
  end.

(** A path that is empty or enters a child before child [i]. *)
Definition enters_before (i : nat) (q : path) : Prop :=
  match q with
  | [] => True
  | j :: _ => (j < i)%nat
  end.

(** A path that enters child [i] or a later one. *)
Definition enters_from (i : nat) (q : path) : Prop :=
  match q with
  | [] => False
  | j :: _ => (i <= j)%nat
  end.

(** The paths the loop detaches among the children from child [i] on. *)
Definition marks_from (removes : Node -> bool) (i : nat) (kids : list Node) : list path :=
  walk_children (marks removes)
    (fun i k => if is_element k && removes k then [[i]] else [])
    (fun i q => i :: q) i kids.

(** What [Find("*")] lists among the children from child [i] on. *)
Definition snapshot_from (i : nat) (kids : list Node) : list (path * Node) :=
  walk_children elements_below
    (fun i k => if is_element k then [([i], k)] else [])
    (fun i pn => (i :: fst pn, snd pn)) i kids.

(* ===================================================================== *)
(** * internal/dom: the other text helpers *)
(* ===================================================================== *)

(** The runes [dom.CountSentences] counts: the full stop, the exclamation
    mark and the question mark, ASCII and CJK. *)
Definition sentence_end (r : rune) : bool :=
  (r =? 46) || (r =? 33) || (r =? 63) || (r =? 12290) || (r =? 65281) || (r =? 65311).

(** The loop of [dom.CountSentences]. *)
Fixpoint count_sentences_loop (count : Z) (text : gostring) : Z :=
  match text with
  | [] => count
  | r :: rest => count_sentences_loop (if sentence_end r then count + 1 else count) rest
  end.

(** [dom.CountSentences]. *)
Definition CountSentences (text : gostring) : Z :=
  let count := count_sentences_loop 0 text in
  if (count =? 0) && (blen text >? 0) then 1 else count.

(** [strings.Join(elems, sep)]. *)
Fixpoint Join (elems : list gostring) (sep : gostring) : gostring :=
  match elems with
  | [] => []
  | [e] => e
  | e :: rest => e ++ sep ++ Join rest sep
  end.

(** The texts [dom.GetLinkText] collects: the text of every link below the
    selection, the empty ones left out. *)
Definition link_texts (sel : Node) : list gostring :=
  List.filter (fun text => negb (is_empty text))
    (List.map (fun s => GetText (snd s)) (FindTag "a" sel)).

(** [dom.GetLinkText]. *)
Definition GetLinkText (sel : Node) : gostring := Join (link_texts sel) [32].

(** [dom.IsWhitespaceOnly]. *)
Definition IsWhitespaceOnly (text : gostring) : bool := is_empty (TrimSpace text).

(** [dom.HasSubstantialText]. *)
Definition HasSubstantialText (sel : Node) (minLength : Z) : bool :=
  GetTextLength sel >=? minLength.

(* ===================================================================== *)
(** * internal/fetcher: the form of a URL *)
(* ===================================================================== *)

(** [fetcher.IsValidURL]. *)
Definition IsValidURL (url : gostring) : bool :=
  let url := TrimSpace url in
  HasPrefix url (runes "http://") || HasPrefix url (runes "https://").

(** [fetcher.NormalizeURL]. *)
Definition NormalizeURL (url : gostring) : gostring :=
  let url := TrimSpace url in
  if negb (HasPrefix url (runes "http://")) && negb (HasPrefix url (runes "https://"))
  then runes "https://" ++ url
  else url.

(* ===================================================================== *)
(** * internal/cleaner: relative URLs *)
(* ===================================================================== *)

(** [strings.Index] and [strings.LastIndex].  The patterns searched for below
    are ASCII, so cutting the rune list at the index found is cutting the Go
    string at the byte offset found. *)
Fixpoint Index (s substr : gostring) : option nat :=
  if HasPrefix s substr then Some O
  else match s with
       | [] => None
       | _ :: s' => option_map S (Index s' substr)
       end.

Fixpoint LastIndex (s substr : gostring) : option nat :=
  match s with
  | [] => if HasPrefix s substr then Some O else None
  | _ :: s' =>
      match LastIndex s' substr with
      | Some i => Some (S i)
      | None => if HasPrefix s substr then Some O else None
      end
  end.

(** [cleaner.isAbsoluteURL]. *)
Definition isAbsoluteURL (url : gostring) : bool :=
  HasPrefix url (runes "http://") || HasPrefix url (runes "https://") ||
  HasPrefix url (runes "//").

(** [cleaner.resolveURL]. *)
Definition resolveURL (base relative : gostring) : gostring :=
  if HasPrefix relative (runes "//") then
    if HasPrefix base (runes "https:") then runes "https:" ++ relative
    else runes "http:" ++ relative
  else if HasPrefix relative (runes "/") then
    match Index base (runes "://") with
    | Some idx =>
        match Index (List.skipn (idx + 3) base) (runes "/") with
        | Some hostEnd => List.firstn (idx + 3 + hostEnd) base ++ relative
        | None => base ++ relative
        end
    | None => relative
    end
  else
    match LastIndex base (runes "/") with
    | Some idx => List.firstn (idx + 1) base ++ relative
    | None => base ++ runes "/" ++ relative
    end.

(** [sel.SetAttr(name, val)] of goquery: the first attribute of that name gets
    the value; without one, the attribute is appended. *)
Fixpoint SetAttr (attr : list (string * gostring)) (name : string) (val : gostring)
    : list (string * gostring) :=
  match attr with
  | [] => [(name, val)]
  | a :: rest =>
      if String.eqb (fst a) name then (fst a, val) :: rest
      else a :: SetAttr rest name val
  end.

(** The body of one loop of [ConvertRelativeURLs], on the attributes of an
    element: the selector is [tag[name]]. *)
Definition convert_url (tag name : string) (baseURL : gostring)
    (el_tag : string) (attr : list (string * gostring)) : list (string * gostring) :=
  if String.eqb el_tag tag then
    match Attr attr name with
    | Some href =>
        if negb (is_empty href) && negb (isAbsoluteURL href)
        then SetAttr attr name (resolveURL baseURL href)
        else attr
    | None => attr
    end
  else attr.

(** A loop [sel.Find(...).Each(...)] that rewrites the attributes of the
    elements it visits: one element and what is below it. *)
Fixpoint each_attr (f : string -> list (string * gostring) -> list (string * gostring))
    (n : Node) : Node :=
  match n with
  | ElementNode tag attr kids => ElementNode tag (f tag attr) (List.map (each_attr f) kids)
  | _ => n
  end.

(** The same loop from a selection, which [Find] does not hold. *)
Definition find_each_attr (f : string -> list (string * gostring) -> list (string * gostring))
    (sel : Node) : Node :=
  match sel with
  | ElementNode tag attr kids => ElementNode tag attr (List.map (each_attr f) kids)
  | _ => sel
  end.

(** [cleaner.ConvertRelativeURLs]. *)
Definition ConvertRelativeURLs (sel : Node) (baseURL : gostring) : Node :=
  if is_empty baseURL then sel
  else
    let sel := find_each_attr (convert_url "a" "href" baseURL) sel in
    find_each_attr (convert_url "img" "src" baseURL) sel.

(* ===================================================================== *)
(** * extractor: the size of an image *)
(* ===================================================================== *)

(** A Go [int] of 64 bits: the value an arithmetic result wraps to. *)
Definition wrap64 (z : Z) : Z := (z + 2 ^ 63) mod 2 ^ 64 - 2 ^ 63.

Definition is_digit (c : rune) : bool := (48 <=? c) && (c <=? 57).

(** The loop of [parseInt]. *)
Fixpoint parseInt_loop (n : Z) (s : gostring) : Z :=
  match s with
  | [] => n
  | c :: rest =>
      if is_digit c then parseInt_loop (wrap64 (n * 10 + (c - 48))) rest
      else n
  end.

(** [parseInt]. *)
Definition parseInt (s : gostring) : Z := parseInt_loop 0 s.

(* ===================================================================== *)
(** * extractor: extraction from a URL *)
(* ===================================================================== *)

Section FromURL.

Variable Time : Type.

(** [Client.Fetch]: the page, or what went wrong with the request. *)
Variable fetch_failure : Type.
Variable Fetch : gostring -> gostring + fetch_failure.

(** [Extractor.ExtractWithURL]. *)
Variable ExtractWithURL : gostring -> gostring -> Article Time + ExtractionError.

(** The errors of [ExtractFromURL]: an [ExtractionError] around one of the
    errors of the package, or around the error [Fetch] returned. *)
Inductive url_error : Type :=
| extraction_error (e : ExtractionError)
| fetch_error (op : string) (url : gostring) (err : fetch_failure).

(** [Extractor.ExtractFromURL]. *)
Definition ExtractFromURL (url : gostring) : Article Time + url_error :=
  let checked :=
    if negb (IsValidURL url) then
      let url := NormalizeURL url in
      if negb (IsValidURL url)
      then inr (extraction_error (NewExtractionError "validate" url ErrInvalidURL))
      else inl url
    else inl url in
  match checked with
  | inr e => inr e
  | inl url =>
      match Fetch url with
      | inr err => inr (fetch_error "fetch" url err)
      | inl html =>
          match ExtractWithURL html url with
          | inr err => inr (extraction_error err)
          | inl article =>
              inl {| Title := Title article;
                     Content := Content article;
                     TextContent := TextContent article;
                     Excerpt := Excerpt article;
                     Author := Author article;
                     PublishedAt := PublishedAt article;
                     LeadImage := LeadImage article;
                     ArticleURL := url;
                     WordCount := WordCount article;
                     ArticleScore := ArticleScore article;
                     Confidence := Confidence article |}
          end
      end
  end.

End FromURL.

(* ===================================================================== *)
(** * Notions used in the further proofs *)
(* ===================================================================== *)

(** A text in which every [\s] is a single space: [in_run] tells that a
    space stands before it. *)
Fixpoint tidy (in_run : bool) (s : gostring) : bool :=
  match s with
  | [] => true
  | c :: r =>
      if re_space c then (c =? 32) && negb in_run && tidy true r
      else tidy false r
  end.

(** The target of a link or an image, as [ConvertRelativeURLs] leaves it: for
    an element of that tag, the attribute is missing, empty or absolute. *)
Definition target_absolute (tag name : string) (e : Node) : Prop :=
  has_tag tag e = true ->
  match Attr (node_attr e) name with
  | Some url => url = [] \/ isAbsoluteURL url = true
  | None => True
  end.

(** A text in which no more than two line feeds follow one another: [seen]
    counts the line feeds that stand before it. *)
Fixpoint short_runs (seen : nat) (s : gostring) : bool :=
  match s with
  | [] => true
  | c :: r =>
      if c =? 10 then (seen <? 2)%nat && short_runs (S seen) r
      else short_runs 0 r
  end.

(* ===================================================================== *)
(** * Properties *)
(* ===================================================================== *)

(** ** Rune lists *)

Lemma Qgt_bool_iff (a b : Q) : Qgt_bool a b = true <-> (b < a)%Q.
Proof.
  unfold Qgt_bool. rewrite negb_true_iff. split.
  - intros H. apply Qnot_le_lt. intros Hle. apply Qle_bool_iff in Hle. congruence.
  - intros H. destruct (Qle_bool a b) eqn:E; [|reflexivity].
    apply Qle_bool_iff in E. exfalso. apply (Qlt_not_le _ _ H E).
Qed.

Lemma Qgt_bool_false_iff (a b : Q) : Qgt_bool a b = false <-> (a <= b)%Q.
Proof.
  unfold Qgt_bool. rewrite negb_false_iff. apply Qle_bool_iff.
Qed.

Lemma trim_left_no_space (s : gostring) :
  Forall (fun r => IsSpace r = false) s -> trim_left s = s.
Proof.
  intros H. destruct H as [|c r Hc Hr]; simpl; [reflexivity|].
  now rewrite Hc.
Qed.

Lemma TrimSpace_no_space (s : gostring) :
  Forall (fun r => IsSpace r = false) s -> TrimSpace s = s.
Proof.
  intros H. unfold TrimSpace. rewrite (trim_left_no_space s H).
  rewrite trim_left_no_space.
  - apply rev_involutive.
  - apply Forall_rev. exact H.
Qed.

Lemma collapse_from_no_space (b : bool) (s : gostring) :
  Forall (fun r => re_space r = false) s -> collapse_from b s = s.
Proof.
  intros H. revert b. induction H as [|c r Hc Hr IH]; intros b; simpl; [reflexivity|].
  rewrite Hc. now rewrite IH.
Qed.

Lemma Forall_repeat {A : Type} (P : A -> Prop) (x : A) (n : nat) :
  P x -> Forall P (List.repeat x n).
Proof.
  intros Hx. induction n as [|n IH]; simpl; constructor; assumption.
Qed.

Lemma NormalizeText_commas (n : nat) :
  NormalizeText (List.repeat 44 n) = List.repeat 44 n.
Proof.
  unfold NormalizeText, collapse_ws.
  rewrite collapse_from_no_space by (apply Forall_repeat; reflexivity).
  apply TrimSpace_no_space. apply Forall_repeat. reflexivity.
Qed.

Lemma CountCommas_repeat (n : nat) : CountCommas (List.repeat 44 n) = Z.of_nat n.
Proof.
  induction n as [|n IH]; [reflexivity|].
  cbn [List.repeat CountCommas]. rewrite IH. simpl. lia.
Qed.

(** The comma count of the source against the two counts the text names. *)
Lemma CountCommas_count_occ (text : gostring) :
  CountCommas text =
  Z.of_nat (count_occ Z.eq_dec text 44) + Z.of_nat (count_occ Z.eq_dec text 65292).
Proof.
  induction text as [|r rest IH]; [reflexivity|].
  cbn [CountCommas count_occ]. rewrite IH.
  destruct (Z.eq_dec r 44) as [->|H1]; [simpl; lia|].
  destruct (Z.eq_dec r 65292) as [->|H2]; [simpl; lia|].
  apply Z.eqb_neq in H1, H2. rewrite H1, H2. simpl. lia.
Qed.

(** ** The paragraph score *)

Lemma float64_sum3 (a b c : Z) :
  (float64 a + float64 b * CommaBonus + float64 c)%Q = float64 (a + b + c).
Proof.
  unfold float64, inject_Z, CommaBonus, Qplus, Qmult. cbn [Qnum Qden].
  f_equal. lia.
Qed.

(** C1.  For every node and every [minLength], the paragraph score is 0 when
    the normalized text has fewer than [minLength] code points, and otherwise
    1, plus 1 for each ASCII comma and each fullwidth comma, plus the number
    of whole 50-code-point chunks capped at 3.  The comma term has no cap:
    scores above any bound occur. *)
Theorem ScoreParagraph_spec :
  (forall (sel : Node) (minLength : Z),
      let text := NormalizeText (Text sel) in
      let n := Z.of_nat (List.length text) in
      ScoreParagraph sel minLength =
      if n <? minLength then 0%Q
      else inject_Z (1 + (Z.of_nat (count_occ Z.eq_dec text 44) +
                          Z.of_nat (count_occ Z.eq_dec text 65292))
                       + Z.min (n / 50) 3)) /\
  (forall (bound minLength : Z),
      exists sel : Node, (inject_Z bound < ScoreParagraph sel minLength)%Q).
Proof.
  split.
  - intros sel minLength text n. unfold ScoreParagraph, GetText, rlen.
    fold text. fold n. destruct (n <? minLength); [reflexivity|].
    rewrite float64_sum3. unfold float64, ParagraphBaseScore. f_equal.
    rewrite CountCommas_count_occ. f_equal.
    assert (Hn : 0 <= n) by (unfold n; lia).
    unfold LengthChunkSize, MaxLengthBonus.
    rewrite Z.quot_div_nonneg by lia.
    destruct (n / 50 >? 3) eqn:E.
    + apply Z.gtb_lt in E. lia.
    + rewrite Z.gtb_ltb in E. apply Z.ltb_ge in E. lia.
  - intros bound minLength.
    set (k := Z.to_nat (Z.max bound minLength + 1)).
    exists (TextNode (List.repeat 44 k)).
    unfold ScoreParagraph, GetText, rlen. cbn [Text].
    rewrite NormalizeText_commas, repeat_length.
    assert (Hk : Z.max bound minLength + 1 <= Z.of_nat k) by (unfold k; lia).
    destruct (Z.of_nat k <? minLength) eqn:E; [apply Z.ltb_lt in E; lia|].
    rewrite float64_sum3. unfold float64. rewrite <- Zlt_Qlt.
    rewrite CountCommas_repeat. unfold ParagraphBaseScore, LengthChunkSize, MaxLengthBonus.
    assert (0 <= Z.quot (Z.of_nat k) 50) by (apply Z.quot_pos; lia).
    destruct (Z.quot (Z.of_nat k) 50 >? 3); lia.
Qed.

(** ** Refinement *)




(** ** Candidate selection *)

Lemma top_step_inv (seen : list NodeScore) (st : option NodeScore * Q) (ns : NodeScore) :
  top_inv seen st -> top_inv (seen ++ [ns]) (top_step st ns).
Proof.
  intros [Hmax Htop]. unfold top_step.
  destruct (Qgt_bool (GetWeightedScore ns) (snd st)) eqn:E.
  - apply Qgt_bool_iff in E. split; cbn [fst snd].
    + intros x Hx. apply in_app_or in Hx as [Hx|[<-|[]]].
      * apply Qle_trans with (snd st); [apply Hmax, Hx|apply Qlt_le_weak, E].
      * apply Qle_refl.
    + split; [reflexivity|]. split.
      * destruct (fst st) as [t|].
        -- destruct Htop as (_ & Hpos & _). apply Qlt_trans with (snd st); assumption.
        -- rewrite Htop in E. exact E.
      * exists seen, []. split; [reflexivity|]. intros x Hx.
        apply Qle_lt_trans with (snd st); [apply Hmax, Hx|exact E].
  - apply Qgt_bool_false_iff in E. split.
    + intros x Hx. apply in_app_or in Hx as [Hx|[<-|[]]]; [apply Hmax, Hx|exact E].
    + destruct (fst st) as [t|]; [|exact Htop].
      destruct Htop as (Heq & Hpos & before & after & -> & Hb).
      split; [exact Heq|]. split; [exact Hpos|].
      exists before, (after ++ [ns]). split; [|exact Hb].
      now rewrite <- app_assoc.
Qed.

Lemma top_fold_inv (order seen : list NodeScore) (st : option NodeScore * Q) :
  top_inv seen st -> top_inv (seen ++ order) (List.fold_left top_step order st).
Proof.
  revert seen st. induction order as [|ns order IH]; intros seen st H; simpl.
  - now rewrite app_nil_r.
  - replace (seen ++ ns :: order) with ((seen ++ [ns]) ++ order)
      by (now rewrite <- app_assoc).
    apply IH. apply top_step_inv. exact H.
Qed.

Lemma GetTopCandidate_inv (order : list NodeScore) :
  top_inv order (List.fold_left top_step order (None, (-1)%Q)).
Proof.
  apply (top_fold_inv order [] (None, (-1)%Q)). split; [intros x []|reflexivity].
Qed.

(** The candidate has the greatest weighted score of the order, above -1, and
    is the first entry of the order with that score. *)
Lemma GetTopCandidate_max (order : list NodeScore) (ns : NodeScore) :
  GetTopCandidate order = Some ns ->
  (-1 < GetWeightedScore ns)%Q /\
  (forall x, In x order -> (GetWeightedScore x <= GetWeightedScore ns)%Q) /\
  exists before after : list NodeScore,
    order = before ++ ns :: after /\
    (forall x, In x before -> (GetWeightedScore x < GetWeightedScore ns)%Q).
Proof.
  unfold GetTopCandidate. intros H.
  destruct (GetTopCandidate_inv order) as [Hmax Htop]. rewrite H in Htop.
  destruct Htop as (Heq & Hpos & Hfirst). rewrite Heq in Hmax, Hpos. auto.
Qed.

(** No candidate means that no weighted score is above -1. *)
Lemma GetTopCandidate_none (order : list NodeScore) :
  GetTopCandidate order = None ->
  forall x, In x order -> (GetWeightedScore x <= -1)%Q.
Proof.
  unfold GetTopCandidate. intros H.
  destruct (GetTopCandidate_inv order) as [Hmax Htop]. rewrite H in Htop.
  rewrite Htop in Hmax. exact Hmax.
Qed.

(** The entries a [range] visits are the values of the map. *)
Lemma range_of_In (sm : ScoreMap) (order : list NodeScore) (ns : NodeScore) :
  range_of sm order -> (In ns order <-> exists n : path, sm !! n = Some ns).
Proof.
  intros Hperm. split.
  - intros Hin. apply (Permutation_in _ Hperm) in Hin.
    apply in_map_iff in Hin as ([n x] & <- & Hin).
    exists n. apply elem_of_map_to_list. apply list_elem_of_In. exact Hin.
  - intros [n Hn]. apply (Permutation_in _ (Permutation_sym Hperm)).
    apply in_map_iff. exists (n, ns). split; [reflexivity|].
    apply list_elem_of_In. apply elem_of_map_to_list. exact Hn.
Qed.

(** A candidate is found exactly when some weighted score is above -1. *)
Lemma GetTopCandidate_some_iff (sm : ScoreMap) (order : list NodeScore) :
  range_of sm order ->
  ((exists ns, GetTopCandidate order = Some ns) <->
   (exists (n : path) (ns : NodeScore), sm !! n = Some ns /\ (-1 < GetWeightedScore ns)%Q)).
Proof.
  intros Hr. split.
  - intros [ns Hns]. destruct (GetTopCandidate_max _ _ Hns) as (Hpos & _ & before & after & -> & _).
    assert (Hin : In ns (before ++ ns :: after)) by (apply in_or_app; right; left; reflexivity).
    apply (range_of_In sm _ ns Hr) in Hin as [n Hn]. exists n, ns. auto.
  - intros (n & ns & Hn & Hpos).
    destruct (GetTopCandidate order) as [t|] eqn:E; [exists t; reflexivity|].
    exfalso. assert (Hin : In ns order) by (apply (range_of_In sm order ns Hr); eauto).
    apply (Qlt_not_le _ _ Hpos). apply (GetTopCandidate_none order E ns Hin).
Qed.

(** C2, as the code has it.  Along every order in which the [range] loop may
    visit the score map: the candidate returned, if any, is a node of the map
    whose weighted score is the greatest of the map; one is returned as soon
    as some weighted score is above -1; and of several nodes with the greatest
    weighted score the one returned is the first in the order of the visit. *)
Theorem GetTopCandidate_maximal (sm : ScoreMap) (order : list NodeScore) :
  range_of sm order ->
  (forall ns : NodeScore,
      GetTopCandidate order = Some ns ->
      (exists n : path, sm !! n = Some ns) /\
      (forall (n' : path) (ns' : NodeScore),
          sm !! n' = Some ns' -> (GetWeightedScore ns' <= GetWeightedScore ns)%Q) /\
      (exists before after : list NodeScore,
          order = before ++ ns :: after /\
          forall x, In x before -> (GetWeightedScore x < GetWeightedScore ns)%Q)) /\
  ((exists (n : path) (ns : NodeScore), sm !! n = Some ns /\ (-1 < GetWeightedScore ns)%Q) ->
   exists ns : NodeScore, GetTopCandidate order = Some ns).
Proof.
  intros Hr. split.
  - intros ns Hns. destruct (GetTopCandidate_max _ _ Hns) as (Hpos & Hmax & before & after & Ho & Hb).
    split; [|split].
    + apply (range_of_In sm order ns Hr). rewrite Ho. apply in_or_app. right. left. reflexivity.
    + intros n' ns' Hn'. apply Hmax. apply (range_of_In sm order ns' Hr). eauto.
    + exists before, after. auto.
  - apply (GetTopCandidate_some_iff sm order Hr).
Qed.

(** The theorem on the two-[div] page, along the order that stdpp lists the
    map in. *)
Lemma GetTopCandidate_maximal_witness :
  exists ns : NodeScore,
    GetTopCandidate (List.map snd (map_to_list (plain_score_map doc_two_divs))) = Some ns /\
    forall (n' : path) (ns' : NodeScore),
      plain_score_map doc_two_divs !! n' = Some ns' ->
      (GetWeightedScore ns' <= GetWeightedScore ns)%Q.
Proof.
  destruct (GetTopCandidate_maximal (plain_score_map doc_two_divs)
              (List.map snd (map_to_list (plain_score_map doc_two_divs)))
              (Permutation_refl _)) as [Hmax Hsome].
  destruct Hsome as [ns Hns].
  - exists [0; 0; 0]%nat. eexists. split; [vm_compute; reflexivity|]. reflexivity.
  - exists ns. split; [exact Hns|]. apply (Hmax ns Hns).
Defined.

(** C2, the claim as stated fails: on the two-[div] page both [div]s have the
    greatest weighted score; one order of the [range] loop returns the first
    of them, the reversed order the second, which comes later in the
    document. *)
Lemma GetTopCandidate_tie_counterexample :
  exists order1 order2 : list NodeScore,
    range_of (plain_score_map doc_two_divs) order1 /\
    range_of (plain_score_map doc_two_divs) order2 /\
    (Selection <$> GetTopCandidate order1) <> (Selection <$> GetTopCandidate order2) /\
    (exists a b : NodeScore,
        plain_score_map doc_two_divs !! ([0; 0; 0]%nat : path) = Some a /\
        plain_score_map doc_two_divs !! ([0; 0; 1]%nat : path) = Some b /\
        (GetWeightedScore a == GetWeightedScore b)%Q /\
        In (Some [0; 0; 1]%nat) [Selection <$> GetTopCandidate order1;
                                 Selection <$> GetTopCandidate order2]).
Proof.
  exists (List.map snd (map_to_list (plain_score_map doc_two_divs))).
  exists (List.rev (List.map snd (map_to_list (plain_score_map doc_two_divs)))).
  split; [apply Permutation_refl|]. split; [apply Permutation_sym, Permutation_rev|].
  split; [vm_compute; discriminate|].
  eexists. eexists. split; [vm_compute; reflexivity|]. split; [vm_compute; reflexivity|].
  split; [reflexivity|]. vm_compute. auto.
Qed.

(** ** Words *)

Lemma count_words_loop_fields (s cur : gostring) (count : Z) :
  count_words_loop (negb (is_empty cur)) count s =
  count + Z.of_nat (List.length (fields_from cur s)).
Proof.
  revert cur count. induction s as [|c r IH]; intros cur count.
  - destruct cur; simpl; lia.
  - cbn [count_words_loop fields_from]. destruct (IsSpace c).
    + destruct cur as [|x cur]; cbn [negb is_empty].
      * apply (IH [] count).
      * change false with (negb (is_empty (@nil rune))).
        rewrite (IH [] (count + 1)). cbn [List.length]. lia.
    + apply (IH (c :: cur) count).
Qed.

Lemma re_space_IsSpace (c : rune) : re_space c = true -> IsSpace c = true.
Proof.
  unfold re_space, IsSpace. intros H.
  repeat (apply orb_true_iff in H as [H|H]); apply Z.eqb_eq in H; subst; reflexivity.
Qed.

Lemma fields_collapse (s cur : gostring) (in_run : bool) :
  (in_run = true -> cur = []) ->
  fields_from cur (collapse_from in_run s) = fields_from cur s.
Proof.
  revert cur in_run. induction s as [|c r IH]; intros cur in_run Hrun; [reflexivity|].
  cbn [collapse_from]. destruct (re_space c) eqn:Hc.
  - apply re_space_IsSpace in Hc. destruct in_run.
    + rewrite (Hrun eq_refl). cbn [fields_from]. rewrite Hc. apply IH. reflexivity.
    + cbn [fields_from]. rewrite Hc. change (IsSpace 32) with true. cbn iota.
      rewrite (IH [] true) by reflexivity. reflexivity.
  - cbn [fields_from]. destruct (IsSpace c).
    + rewrite (IH [] false) by discriminate. reflexivity.
    + apply IH. discriminate.
Qed.

Lemma fields_trim_left (s : gostring) : fields_from [] (trim_left s) = fields_from [] s.
Proof.
  induction s as [|c r IH]; [reflexivity|].
  cbn [trim_left fields_from]. destruct (IsSpace c) eqn:Hc; [exact IH|].
  cbn [fields_from]. now rewrite Hc.
Qed.

Lemma trim_left_split (s : gostring) :
  exists ws : gostring, s = ws ++ trim_left s /\ Forall (fun r => IsSpace r = true) ws.
Proof.
  induction s as [|c r (ws & Hs & Hws)].
  - exists []. split; [reflexivity|constructor].
  - cbn [trim_left]. destruct (IsSpace c) eqn:Hc.
    + exists (c :: ws). split; [cbn; now rewrite <- Hs|constructor; assumption].
    + exists []. split; [reflexivity|constructor].
Qed.

Lemma fields_spaces_after (s ws cur : gostring) :
  Forall (fun r => IsSpace r = true) ws ->
  fields_from cur (s ++ ws) = fields_from cur s.
Proof.
  intros Hws. revert cur. induction s as [|c r IH]; intros cur.
  - cbn [app]. revert cur. induction Hws as [|w ws Hw _ IHws]; intros cur; [reflexivity|].
    cbn [fields_from]. rewrite Hw. destruct cur; rewrite (IHws []); reflexivity.
  - cbn [app fields_from]. destruct (IsSpace c); [destruct cur|]; now rewrite IH.
Qed.

(** [TrimSpace] cuts white space off both ends and nothing else. *)
Lemma TrimSpace_split (s : gostring) :
  exists l r : gostring,
    s = l ++ TrimSpace s ++ r /\
    Forall (fun c => IsSpace c = true) l /\ Forall (fun c => IsSpace c = true) r.
Proof.
  unfold TrimSpace.
  destruct (trim_left_split s) as (l & Hl & Hlws).
  destruct (trim_left_split (List.rev (trim_left s))) as (r & Hr & Hrws).
  exists l, (List.rev r). split; [|split; [assumption|apply Forall_rev; assumption]].
  rewrite <- rev_app_distr, <- Hr, rev_involutive. exact Hl.
Qed.

Lemma fields_TrimSpace (s : gostring) : Fields (TrimSpace s) = Fields s.
Proof.
  unfold Fields, TrimSpace.
  destruct (trim_left_split (List.rev (trim_left s))) as (ws & Hs & Hws).
  assert (Hs' : trim_left s =
                List.rev (trim_left (List.rev (trim_left s))) ++ List.rev ws)
    by (now rewrite <- rev_app_distr, <- Hs, rev_involutive).
  rewrite <- (fields_trim_left s). rewrite Hs' at 2.
  rewrite fields_spaces_after; [reflexivity|]. apply Forall_rev. exact Hws.
Qed.

Lemma fields_NormalizeText (s : gostring) : Fields (NormalizeText s) = Fields s.
Proof.
  unfold NormalizeText. rewrite fields_TrimSpace. unfold Fields, collapse_ws.
  apply fields_collapse. discriminate.
Qed.

(** [CountWords] counts the fields of [strings.Fields]. *)
Lemma CountWords_fields (text : gostring) :
  CountWords text = Z.of_nat (List.length (Fields text)).
Proof.
  unfold CountWords. rewrite <- (fields_NormalizeText text).
  destruct (NormalizeText text) as [|c r] eqn:E; [reflexivity|].
  apply (count_words_loop_fields (c :: r) [] 0).
Qed.

(** ** Confidence *)

Lemma calculateConfidence_range (topCandidate : NodeScore) (order : list NodeScore) (wordCount : Z) :
  (0 <= calculateConfidence topCandidate order wordCount <= 1)%Q.
Proof.
  unfold calculateConfidence, calculateConfidence_in.
  generalize (GetCandidatesByScore order) as candidates. intros candidates.
  generalize (GetScore topCandidate) as score. intros score.
  generalize (LinkDensity topCandidate) as density. intros density.
  destruct candidates as [|first [|second rest]];
    destruct (Qgt_bool score 100), (Qgt_bool score 50), (Qgt_bool score 20),
      (wordCount >? 500), (wordCount >? 200), (wordCount >? 100),
      (Qlt_bool density (1 # 10)), (Qlt_bool density (2 # 10));
    try destruct (Qgt_bool score (GetScore second * 2));
    vm_compute; split; discriminate.
Qed.

(** The same sum in binary64 ends in [0, 1] as well: rounding never carries
    it past the clamp. *)
Lemma calculateConfidence_binary64_range (topCandidate : NodeScore) (order : list NodeScore)
    (wordCount : Z) :
  PrimFloat.leb 0 (calculateConfidence_binary64 topCandidate order wordCount) = true /\
  PrimFloat.leb (calculateConfidence_binary64 topCandidate order wordCount) 1 = true.
Proof.
  unfold calculateConfidence_binary64, calculateConfidence_in.
  generalize (GetCandidatesByScore order) as candidates. intros candidates.
  generalize (GetScore topCandidate) as score. intros score.
  generalize (LinkDensity topCandidate) as density. intros density.
  destruct candidates as [|first [|second rest]];
    destruct (Qgt_bool score 100), (Qgt_bool score 50), (Qgt_bool score 20),
      (wordCount >? 500), (wordCount >? 200), (wordCount >? 100),
      (Qlt_bool density (1 # 10)), (Qlt_bool density (2 # 10));
    try destruct (Qgt_bool score (GetScore second * 2));
    vm_compute; split; reflexivity.
Qed.

(** ** The extraction call *)

Section ExtractorProperties.

Variable Time : Type.
Variable getMetaContent getMetaContent' : Document -> string -> gostring.
Variable getSchemaHeadline getSchemaHeadline' : Document -> gostring.
Variable getArticleH1 getArticleH1' : Document -> gostring.
Variable getFirstH1 getFirstH1' : Document -> gostring.
Variable getTitleTag getTitleTag' : Document -> gostring.
Variable ExtractAuthor ExtractAuthor' : Document -> gostring.
Variable ExtractDate ExtractDate' : Document -> option Time.
Variable extractLeadImage extractLeadImage' : Document -> gostring -> option Image.
Variable RemoveHiddenElements : Document -> Document.
Variable RemoveKnownWidgets : Document -> Document.
Variable ConvertDataArticleBodyToParagraphs : Document -> Document.
Variable ConvertToParagraphs : Document -> Document.
Variable MergeSiblings : Document -> path -> Q -> Z -> Node.
Variable ConvertRelativeURLs : Node -> gostring -> Node.
Variable config : Config.

(** The call, and the same call with other metadata strategies. *)
Local Abbreviation extract :=
  (extractFromDocument Time getMetaContent getSchemaHeadline getArticleH1 getFirstH1
     getTitleTag ExtractAuthor ExtractDate extractLeadImage RemoveHiddenElements
     RemoveKnownWidgets ConvertDataArticleBodyToParagraphs ConvertToParagraphs
     MergeSiblings ConvertRelativeURLs config).

Local Abbreviation extract' :=
  (extractFromDocument Time getMetaContent' getSchemaHeadline' getArticleH1' getFirstH1'
     getTitleTag' ExtractAuthor' ExtractDate' extractLeadImage' RemoveHiddenElements
     RemoveKnownWidgets ConvertDataArticleBodyToParagraphs ConvertToParagraphs
     MergeSiblings ConvertRelativeURLs config).

Local Abbreviation score_map :=
  (call_score_map RemoveHiddenElements RemoveKnownWidgets
     ConvertDataArticleBodyToParagraphs ConvertToParagraphs config).

(** C6.  When the call returns an article, the text of the article has at
    least [MinContentLength] bytes, the confidence lies in [0, 1], and the
    word count is the number of white-space separated fields of the text.
    The confidence lies in [0, 1] as well when its sum is taken in binary64. *)
Theorem extraction_success_properties (doc : Document) (baseURL : gostring)
    (order1 order2 : list NodeScore) (article : Article Time) :
  extract doc baseURL order1 order2 = inl article ->
  MinContentLength config <= blen (TextContent article) /\
  (0 <= Confidence article <= 1)%Q /\
  WordCount article = Z.of_nat (List.length (Fields (TextContent article))) /\
  (forall topCandidate : NodeScore,
      PrimFloat.leb 0
        (calculateConfidence_binary64 topCandidate order2 (WordCount article)) = true /\
      PrimFloat.leb
        (calculateConfidence_binary64 topCandidate order2 (WordCount article)) 1 = true).
Proof.
  unfold extractFromDocument, Score. cbn zeta.
  destruct (GetTopCandidate order1) as [top|]; [|discriminate].
  match goal with |- context [blen ?t <? _] => set (textContent := t) end.
  destruct (blen textContent <? MinContentLength config) eqn:E; [discriminate|].
  intros H. injection H as <-. cbn [TextContent Confidence WordCount].
  apply Z.ltb_ge in E. split; [exact E|]. split; [|split].
  - apply calculateConfidence_range.
  - apply CountWords_fields.
  - intros topCandidate. apply calculateConfidence_binary64_range.
Qed.



End ExtractorProperties.

(** The theorem on a page with an article of three paragraphs. *)
Lemma extraction_success_properties_witness :
  exists article : Article unit,
    plain_extract doc_article []
      (List.map snd (map_to_list (plain_score_map doc_article)))
      (List.map snd (map_to_list (plain_score_map doc_article))) = inl article /\
    100 <= blen (TextContent article) /\
    (0 <= Confidence article <= 1)%Q /\
    WordCount article = Z.of_nat (List.length (Fields (TextContent article))).
Proof.
  assert (drop_last : forall A B C D : Prop, A /\ B /\ C /\ D -> A /\ B /\ C) by tauto.
  destruct (plain_extract doc_article []
              (List.map snd (map_to_list (plain_score_map doc_article)))
              (List.map snd (map_to_list (plain_score_map doc_article)))) as [article|e] eqn:E.
  - exists article. split; [reflexivity|]. unfold plain_extract in E.
    exact (drop_last _ _ _ _
             (extraction_success_properties _ _ _ _ _ _ _ _ _ _ _ _ _ _ _ _ _ _ _ _ _ E)).
  - exfalso. vm_compute in E. discriminate E.
Defined.


(** ** Propagation *)


















(** Initialization is keyed on a content score of zero, so it runs again on
    a [form] whose score has come back to zero: after the first paragraph
    (share 3) the score is 0, and the second paragraph (share 1) leaves it at
    -2, the penalty having been added twice. *)
Lemma reinitialization_example :
  (ContentScore <$> (propagate_over doc_form_twice 25
                       (List.firstn 1 (FindParagraphs doc_form_twice)) NewScoreMap
                     !! ([0; 0; 0]%nat : path))) = Some 0%Q /\
  (ContentScore <$> (ScoreAndPropagate doc_form_twice 25 !! ([0; 0; 0]%nat : path))) =
  Some (-2)%Q.
Proof. split; vm_compute; reflexivity. Qed.

(** ** Substrings *)

Lemma HasPrefix_iff (s prefix : gostring) :
  HasPrefix s prefix = true <-> exists r : gostring, s = prefix ++ r.
Proof.
  revert s. induction prefix as [|p prefix IH]; intros s.
  - destruct s; cbn; split; eauto.
  - destruct s as [|c s]; cbn [HasPrefix].
    + split; [discriminate|]. intros [r Hr]. discriminate Hr.
    + rewrite andb_true_iff, IH. unfold rune_eqb. rewrite Z.eqb_eq. split.
      * intros [-> [r ->]]. exists r. reflexivity.
      * intros [r Hr]. injection Hr as -> ->. eauto.
Qed.

Lemma Contains_iff (s substr : gostring) :
  Contains s substr = true <-> exists l r : gostring, s = l ++ substr ++ r.
Proof.
  induction s as [|c s IH].
  - cbn [Contains]. rewrite orb_false_r, HasPrefix_iff. split.
    + intros [r Hr]. exists [], r. exact Hr.
    + intros (l & r & H). destruct l; [exists r; exact H|discriminate H].
  - cbn [Contains]. rewrite orb_true_iff, HasPrefix_iff, IH. split.
    + intros [[r Hr]|(l & r & ->)]; [exists [], r; exact Hr|exists (c :: l), r; reflexivity].
    + intros (l & r & H). destruct l as [|x l].
      * left. exists r. exact H.
      * right. injection H as -> ->. eauto.
Qed.

Lemma Contains_within (l m r substr : gostring) :
  Contains (l ++ m ++ r) substr = false -> Contains m substr = false.
Proof.
  intros H. destruct (Contains m substr) eqn:E; [|reflexivity].
  apply Contains_iff in E as (l' & r' & ->).
  assert (Contains (l ++ (l' ++ substr ++ r') ++ r) substr = true); [|congruence].
  apply Contains_iff. exists (l ++ l'), (r' ++ r). now rewrite <- !app_assoc.
Qed.

(** ** The title *)

Lemma blen_nonneg (s : gostring) : 0 <= blen s.
Proof.
  induction s as [|r s IH]; [reflexivity|].
  cbn [blen List.fold_right]. fold (blen s). unfold RuneLen.
  repeat match goal with |- context [if ?b then _ else _] => destruct b end; lia.
Qed.

Lemma HasPrefix_skipn (s sep : gostring) :
  HasPrefix s sep = true -> s = sep ++ List.skipn (List.length sep) s.
Proof.
  intros H. apply HasPrefix_iff in H as [r ->].
  now rewrite skipn_app, Nat.sub_diag, skipn_all.
Qed.

Lemma split_last_sound (title sep before after : gostring) :
  split_last title sep = Some (before, after) -> title = before ++ sep ++ after.
Proof.
  revert before. induction title as [|c rest IH]; intros before; cbn [split_last].
  - destruct (HasPrefix [] sep) eqn:E; [|discriminate].
    intros H. injection H as <- <-. apply (HasPrefix_skipn [] sep E).
  - destruct (split_last rest sep) as [[b a]|].
    + intros H. injection H as <- <-. cbn. f_equal. apply IH. reflexivity.
    + destruct (HasPrefix (c :: rest) sep) eqn:E; [|discriminate].
      intros H. injection H as <- <-. apply (HasPrefix_skipn _ sep E).
Qed.

Lemma split_last_none (title sep : gostring) :
  split_last title sep = None <-> Contains title sep = false.
Proof.
  induction title as [|c rest IH]; cbn [split_last Contains].
  - rewrite orb_false_r. destruct (HasPrefix [] sep); split; congruence.
  - destruct (split_last rest sep) as [[b a]|].
    + split; [discriminate|]. intros H. apply orb_false_iff in H as [_ H].
      apply IH in H. discriminate H.
    + rewrite (proj1 IH eq_refl), orb_false_r.
      destruct (HasPrefix (c :: rest) sep); split; congruence.
Qed.

(** The split is at the last occurrence. *)
Lemma split_last_last (title sep before after : gostring) :
  split_last title sep = Some (before, after) ->
  forall b' a' : gostring,
    title = b' ++ sep ++ a' -> (List.length b' <= List.length before)%nat.
Proof.
  revert before. induction title as [|c rest IH]; intros before; cbn [split_last].
  - intros _ b' a' H. destruct b'; [cbn; lia|discriminate H].
  - destruct (split_last rest sep) as [[b a]|] eqn:E.
    + intros H b' a' Ht. injection H as <- <-. destruct b' as [|x b']; [cbn; lia|].
      injection Ht as -> ->. cbn. apply le_n_S. apply (IH b eq_refl b' a' eq_refl).
    + destruct (HasPrefix (c :: rest) sep); [|discriminate].
      intros H b' a' Ht. injection H as <- <-. destruct b' as [|x b']; [cbn; lia|].
      exfalso. injection Ht as -> ->.
      apply split_last_none in E.
      assert (Contains (b' ++ sep ++ a') sep = true); [|congruence].
      apply Contains_iff. eauto.
Qed.

Lemma clean_separator_absent (title sep : gostring) :
  Contains title sep = false -> clean_separator title sep = title.
Proof.
  intros H. unfold clean_separator. apply split_last_none in H. now rewrite H.
Qed.

(** What is left of a title after one separator is part of the title. *)
Lemma clean_separator_within (title sep : gostring) :
  exists l r : gostring, title = l ++ clean_separator title sep ++ r.
Proof.
  unfold clean_separator. destruct (split_last title sep) as [[before after]|] eqn:E.
  - apply split_last_sound in E.
    destruct (blen before >? blen after * 2).
    + destruct (TrimSpace_split before) as (l & r & Hb & _ & _).
      exists l, (r ++ sep ++ after). rewrite E. rewrite Hb at 1. now rewrite <- !app_assoc.
    + destruct (blen after >? blen before * 2).
      * destruct (TrimSpace_split after) as (l & r & Ha & _ & _).
        exists (before ++ sep ++ l), r. rewrite E. rewrite Ha at 1. now rewrite <- !app_assoc.
      * exists [], []. now rewrite app_nil_r.
  - exists [], []. now rewrite app_nil_r.
Qed.

Lemma clean_separators_absent (seps : list gostring) (title : gostring) :
  (forall sep, In sep seps -> Contains title sep = false) ->
  List.fold_left clean_separator seps title = title.
Proof.
  revert title. induction seps as [|sep seps IH]; intros title H; [reflexivity|].
  cbn [List.fold_left]. rewrite clean_separator_absent by (apply H; left; reflexivity).
  apply IH. intros s Hs. apply H. right. exact Hs.
Qed.

Lemma titleSeparators_NoDup : NoDup titleSeparators.
Proof.
  unfold titleSeparators.
  repeat (apply NoDup_cons_2;
          [intros H; repeat (apply elem_of_cons in H as [H|H]; [discriminate H|]);
           apply elem_of_nil in H; exact H|]).
  apply NoDup_nil_2.
Qed.

(** A title with one kind of separator: the rule for that separator decides. *)
Lemma cleanTitle_one_separator (title sep : gostring) :
  In sep titleSeparators ->
  (forall sep', In sep' titleSeparators -> sep' <> sep ->
                Contains (collapse_ws (TrimSpace title)) sep' = false) ->
  cleanTitle title = clean_separator (collapse_ws (TrimSpace title)) sep.
Proof.
  intros Hin Hother. unfold cleanTitle. cbn zeta.
  set (t := collapse_ws (TrimSpace title)) in *.
  destruct (in_split _ _ Hin) as (l1 & l2 & Hsplit).
  pose proof titleSeparators_NoDup as Hnd. rewrite Hsplit in Hnd.
  apply NoDup_app in Hnd as (_ & Hdisj & Hnd2). apply NoDup_cons in Hnd2 as [Hnot2 _].
  assert (Hl1 : forall s, In s l1 -> Contains t s = false).
  { intros s Hs. apply Hother.
    - rewrite Hsplit. apply in_or_app. left. exact Hs.
    - intros ->. apply (Hdisj sep); [apply list_elem_of_In, Hs|left]. }
  assert (Hl2 : forall s, In s l2 -> Contains t s = false).
  { intros s Hs. apply Hother.
    - rewrite Hsplit. apply in_or_app. right. right. exact Hs.
    - intros ->. apply Hnot2. apply list_elem_of_In, Hs. }
  rewrite Hsplit, fold_left_app. cbn [List.fold_left].
  rewrite (clean_separators_absent l1 t Hl1).
  apply clean_separators_absent. intros s Hs.
  destruct (clean_separator_within t sep) as (l & r & Ht).
  apply (Contains_within l _ r). rewrite <- Ht. apply Hl2, Hs.
Qed.

(** C8, as the code has it.  [cleanTitle] trims the title and collapses its
    white space, then takes the known separators in turn, each on the title
    that the ones before it have left.  A separator that does not occur
    leaves the title as it is.  For one that occurs, the title is cut at its
    last occurrence: a side whose length in bytes is more than twice that of
    the other is kept alone, trimmed, and with sides of comparable length the
    title stays whole.  For a title with one kind of separator this rule gives
    the result, as for the title of the example. *)
Theorem cleanTitle_spec :
  (forall title : gostring,
      cleanTitle title =
      List.fold_left clean_separator titleSeparators (collapse_ws (TrimSpace title))) /\
  (forall title sep : gostring,
      Contains title sep = false -> clean_separator title sep = title) /\
  (forall title sep : gostring,
      Contains title sep = true ->
      exists before after : gostring,
        title = before ++ sep ++ after /\
        (forall b' a' : gostring,
            title = b' ++ sep ++ a' -> (List.length b' <= List.length before)%nat) /\
        (blen after * 2 < blen before -> clean_separator title sep = TrimSpace before) /\
        (blen before * 2 < blen after -> clean_separator title sep = TrimSpace after) /\
        (blen before <= blen after * 2 -> blen after <= blen before * 2 ->
         clean_separator title sep = title)) /\
  (forall title sep : gostring,
      In sep titleSeparators ->
      (forall sep', In sep' titleSeparators -> sep' <> sep ->
                    Contains (collapse_ws (TrimSpace title)) sep' = false) ->
      cleanTitle title = clean_separator (collapse_ws (TrimSpace title)) sep) /\
  cleanTitle (runes "A Very Long Article Title About Something Interesting - Site") =
  runes "A Very Long Article Title About Something Interesting".
Proof.
  split; [reflexivity|]. split; [exact clean_separator_absent|].
  split; [|split; [exact cleanTitle_one_separator|vm_compute; reflexivity]].
  intros title sep Hc. unfold clean_separator.
  destruct (split_last title sep) as [[before after]|] eqn:E.
  - exists before, after. split; [apply (split_last_sound _ _ _ _ E)|].
    split; [apply (split_last_last _ _ _ _ E)|].
    pose proof (blen_nonneg before). pose proof (blen_nonneg after).
    destruct (blen before >? blen after * 2) eqn:E1;
      destruct (blen after >? blen before * 2) eqn:E2;
      rewrite ?Z.gtb_ltb in E1, E2;
      try apply Z.ltb_lt in E1; try apply Z.ltb_lt in E2;
      try apply Z.ltb_ge in E1; try apply Z.ltb_ge in E2;
      repeat split; intros; try reflexivity; lia.
  - apply split_last_none in E. congruence.
Qed.

(** C8, the claim as stated fails for a title with two kinds of separator.
    In [Short | A very long title part - Z] the side after the bar is more
    than twice as long as the side before it, yet what is kept is not that
    side: the dash is taken next and cuts it again.  In [AAAA - BBBB | C] the
    two sides of the dash are 4 and 8 bytes long, which is comparable, yet the
    title does not stay whole: the bar is taken first. *)
Lemma cleanTitle_two_separators_counterexample :
  split_last (runes "Short | A very long title part - Z") (runes " | ") =
  Some (runes "Short", runes "A very long title part - Z") /\
  blen (runes "Short") * 2 < blen (runes "A very long title part - Z") /\
  cleanTitle (runes "Short | A very long title part - Z") =
  runes "A very long title part" /\
  split_last (runes "AAAA - BBBB | C") (runes " - ") =
  Some (runes "AAAA", runes "BBBB | C") /\
  blen (runes "AAAA") <= blen (runes "BBBB | C") * 2 /\
  blen (runes "BBBB | C") <= blen (runes "AAAA") * 2 /\
  cleanTitle (runes "AAAA - BBBB | C") = runes "AAAA - BBBB".
Proof. repeat split; vm_compute; try reflexivity; discriminate. Qed.

(** ** Removing elements *)

Lemma Node_induction (P : Node -> Prop) :
  (forall d, P (TextNode d)) ->
  (forall d, P (CommentNode d)) ->
  (forall tag attr kids, List.Forall P kids -> P (ElementNode tag attr kids)) ->
  forall n : Node, P n.
Proof.
  intros Ht Hc He. fix IH 1. intros [d|d|tag attr kids]; [apply Ht|apply Hc|].
  apply He.
  exact ((fix go (l : list Node) : List.Forall P l :=
            match l with
            | [] => @List.Forall_nil _ P
            | k :: r => @List.Forall_cons _ P k r (IH k) (go r)
            end) kids).
Qed.

Lemma remove_where_children (removes : Node -> bool) (n : Node) :
  node_children (remove_where removes n) =
  prune_children removes (remove_where removes) (node_children n).
Proof. destruct n; reflexivity. Qed.

(** A child that is not removed is a child afterwards, rewritten below. *)
Lemma prune_children_keeps (removes : Node -> bool) (l : list Node) (i : nat) (n : Node) :
  List.nth_error l i = Some n ->
  (is_element n && removes n) = false ->
  exists i' : nat,
    List.nth_error (prune_children removes (remove_where removes) l) i' =
    Some (remove_where removes n).
Proof.
  revert i. induction l as [|k r IH]; intros i Hi Hkeep; [destruct i; discriminate Hi|].
  cbn [prune_children]. destruct i as [|i]; cbn [List.nth_error] in Hi.
  - injection Hi as ->. rewrite Hkeep. exists 0%nat. reflexivity.
  - destruct (IH i Hi Hkeep) as [i' Hi']. destruct (is_element k && removes k).
    + exists i'. exact Hi'.
    + exists (S i'). exact Hi'.
Qed.

(** A node none of whose ancestors is removed, and which is not removed
    itself, is in the tree afterwards. *)
Lemma prune_children_keeps_path (removes : Node -> bool) (p : path) (l : list Node) (sel : Node) :
  node_at l p = Some sel ->
  List.Forall (fun a => (is_element a && removes a) = false) (nodes_along l p) ->
  exists p' : path,
    node_at (prune_children removes (remove_where removes) l) p' =
    Some (remove_where removes sel).
Proof.
  revert l. induction p as [|i p IH]; intros l Hat Hkeep; [discriminate Hat|].
  cbn [node_at nodes_along] in Hat, Hkeep.
  destruct (List.nth_error l i) as [n|] eqn:Hi; [|discriminate Hat].
  apply List.Forall_cons_iff in Hkeep as [Hn Hrest].
  destruct (prune_children_keeps removes l i n Hi Hn) as [i' Hi'].
  destruct p as [|j p].
  - injection Hat as ->. exists [i']. cbn [node_at]. now rewrite Hi'.
  - destruct (IH (node_children n) Hat Hrest) as [p' Hp'].
    destruct p' as [|j' p']; [discriminate Hp'|].
    exists (i' :: j' :: p'). cbn [node_at]. rewrite Hi'.
    rewrite remove_where_children. exact Hp'.
Qed.

Lemma nodes_along_last (p : path) (l : list Node) (sel : Node) :
  node_at l p = Some sel ->
  nodes_along l p = List.removelast (nodes_along l p) ++ [sel].
Proof.
  revert l. induction p as [|i p IH]; intros l Hat; [discriminate Hat|].
  cbn [node_at nodes_along] in *.
  destruct (List.nth_error l i) as [n|]; [|discriminate Hat].
  destruct p as [|j p].
  - injection Hat as ->. reflexivity.
  - specialize (IH (node_children n) Hat).
    destruct (nodes_along (node_children n) (j :: p)) as [|x xs] eqn:E.
    + destruct (List.removelast []); discriminate IH.
    + cbn [List.removelast]. cbn [List.removelast] in IH. rewrite IH at 1. reflexivity.
Qed.

(** ** The removing loop and the tree it leaves *)

Lemma strip_index_app (i : nat) (a b : list path) :
  strip_index i (a ++ b) = strip_index i a ++ strip_index i b.
Proof. unfold strip_index. apply List.flat_map_app. Qed.

Lemma strip_index_lifted (i : nat) (X : list path) :
  strip_index i (List.map (fun q => i :: q) X) = X.
Proof.
  induction X as [|q X IH]; [reflexivity|].
  cbn [List.map strip_index List.flat_map]. rewrite Nat.eqb_refl.
  cbn [app]. f_equal. exact IH.
Qed.

Lemma strip_index_before (i : nat) (R : list path) :
  List.Forall (enters_before i) R -> strip_index i R = [].
Proof.
  induction 1 as [|q R Hq _ IH]; [reflexivity|].
  cbn [strip_index List.flat_map]. fold (strip_index i R). rewrite IH.
  destruct q as [|j q]; [reflexivity|]. cbn in Hq.
  destruct (Nat.eqb_spec j i); [lia|reflexivity].
Qed.

Lemma strip_index_from (i : nat) (R : list path) :
  List.Forall (enters_from (S i)) R -> strip_index i R = [].
Proof.
  induction 1 as [|q R Hq _ IH]; [reflexivity|].
  cbn [strip_index List.flat_map]. fold (strip_index i R). rewrite IH.
  destruct q as [|j q]; [reflexivity|]. cbn in Hq.
  destruct (Nat.eqb_spec j i); [lia|reflexivity].
Qed.

Lemma roots_enter_before (i : nat) (R : list path) :
  List.Forall (fun q => q = []) R -> List.Forall (enters_before i) R.
Proof. apply List.Forall_impl. intros q ->. exact I. Qed.

Lemma enters_before_S (i : nat) (R : list path) :
  List.Forall (enters_before i) R -> List.Forall (enters_before (S i)) R.
Proof. apply List.Forall_impl. intros [|j q]; cbn; [trivial|lia]. Qed.

Lemma lifted_enter_before (i : nat) (X : list path) :
  List.Forall (enters_before (S i)) (List.map (fun q => i :: q) X).
Proof. induction X; constructor; [cbn; lia|assumption]. Qed.

Lemma marks_from_enter (removes : Node -> bool) (kids : list Node) (i : nat) :
  List.Forall (enters_from i) (marks_from removes i kids).
Proof.
  revert i. induction kids as [|k r IH]; intros i; [constructor|].
  unfold marks_from. cbn [walk_children]. fold (marks_from removes (S i) r).
  apply List.Forall_app. split; [|apply List.Forall_app; split].
  - destruct (is_element k && removes k); repeat constructor.
  - apply List.Forall_map. apply List.Forall_forall. intros q _. cbn. lia.
  - eapply List.Forall_impl; [|apply IH]. intros [|j q]; cbn; [trivial|lia].
Qed.

Lemma marks_no_root (removes : Node -> bool) (n : Node) :
  holds_root (marks removes n) = false.
Proof.
  destruct n as [d|d|tag attr kids]; try reflexivity.
  change (marks removes (ElementNode tag attr kids)) with (marks_from removes 0 kids).
  pose proof (marks_from_enter removes kids 0) as H.
  induction H as [|q R Hq _ IH]; [reflexivity|].
  cbn [holds_root List.existsb]. destruct q; [destruct Hq|exact IH].
Qed.

Lemma detach_nothing (n : Node) : detach [] n = n.
Proof.
  induction n as [d|d|tag attr kids IH] using Node_induction; try reflexivity.
  change (detach [] (ElementNode tag attr kids))
    with (ElementNode tag attr (detach_children detach [] 0 kids)).
  f_equal. generalize 0%nat.
  induction IH as [|k r IHk _ IHr]; intros i; [reflexivity|].
  cbn [detach_children strip_index List.flat_map holds_root List.existsb].
  f_equal; [exact IHk|apply IHr].
Qed.

(** The loop inside child [i] runs as the loop of that child does on its own,
    the paths being those of the child with [i] in front. *)
Lemma loop_lifted (removes : Node -> bool) (i : nat) (L : list (path * Node))
    (R : list path) :
  exists X : list path,
    List.fold_left (each_step removes) L (strip_index i R) = strip_index i R ++ X /\
    List.fold_left (each_step removes)
      (List.map (fun pn => (i :: fst pn, snd pn)) L) R =
    R ++ List.map (fun q => i :: q) X.
Proof.
  revert R. induction L as [|s L IH]; intros R.
  - exists []. cbn. now rewrite !app_nil_r.
  - cbn [List.map List.fold_left].
    change (each_step removes R (i :: fst s, snd s)) with
      (if removes (detach (strip_path (fst s) (strip_index i R)) (snd s))
       then R ++ [i :: fst s] else R).
    change (each_step removes (strip_index i R) s) with
      (if removes (detach (strip_path (fst s) (strip_index i R)) (snd s))
       then strip_index i R ++ [fst s] else strip_index i R).
    destruct (removes (detach (strip_path (fst s) (strip_index i R)) (snd s))).
    + destruct (IH (R ++ [i :: fst s])) as (X & Hrel & Habs).
      rewrite strip_index_app in Hrel. cbn [strip_index List.flat_map] in Hrel.
      rewrite Nat.eqb_refl in Hrel. cbn [app] in Hrel.
      exists (fst s :: X). split.
      * rewrite Hrel. now rewrite <- app_assoc.
      * rewrite Habs. cbn [List.map]. now rewrite <- app_assoc.
    + apply IH.
Qed.

(** The loop over the children from child [i] on detaches the marked paths. *)
Lemma loop_marks_from (removes : Node -> bool) (kids : list Node) :
  List.Forall
    (fun k => forall R0, List.Forall (fun q => q = []) R0 ->
                 List.fold_left (each_step removes) (elements_below k) R0 =
                 R0 ++ marks removes k) kids ->
  forall (i : nat) (R : list path),
    List.Forall (enters_before i) R ->
    List.fold_left (each_step removes) (snapshot_from i kids) R =
    R ++ marks_from removes i kids.
Proof.
  induction 1 as [|k r IHk _ IHr]; intros i R HR.
  - cbn. now rewrite app_nil_r.
  - unfold snapshot_from, marks_from. cbn [walk_children].
    fold (snapshot_from (S i) r). fold (marks_from removes (S i) r).
    rewrite !fold_left_app.
    set (here := if is_element k && removes k then [[i]] else []).
    assert (Hhere : List.fold_left (each_step removes)
                      (if is_element k then [([i], k)] else []) R = R ++ here).
    { subst here. destruct (is_element k); cbn [andb List.fold_left].
      - unfold each_step. cbn [fst snd strip_path List.fold_left].
        rewrite (strip_index_before i R HR), detach_nothing.
        destruct (removes k); [reflexivity|now rewrite app_nil_r].
      - now rewrite app_nil_r. }
    rewrite Hhere.
    destruct (loop_lifted removes i (elements_below k) (R ++ here)) as (X & Hrel & Habs).
    rewrite Habs.
    assert (Hroots : List.Forall (fun q => q = []) (strip_index i (R ++ here))).
    { rewrite strip_index_app, (strip_index_before i R HR). subst here.
      destruct (is_element k && removes k); cbn; [rewrite Nat.eqb_refl|]; repeat constructor. }
    rewrite (IHk _ Hroots) in Hrel. apply app_inv_head in Hrel. subst X.
    rewrite IHr.
    + now rewrite <- !app_assoc.
    + apply List.Forall_app. split; [apply List.Forall_app; split|].
      * apply enters_before_S, HR.
      * subst here. destruct (is_element k && removes k); repeat constructor.
      * apply lifted_enter_before.
Qed.

Lemma loop_marks (removes : Node -> bool) (n : Node) (R0 : list path) :
  List.Forall (fun q => q = []) R0 ->
  List.fold_left (each_step removes) (elements_below n) R0 = R0 ++ marks removes n.
Proof.
  revert R0. induction n as [d|d|tag attr kids IH] using Node_induction; intros R0 H0;
    try (cbn; now rewrite app_nil_r).
  apply (loop_marks_from removes kids IH 0 R0). apply roots_enter_before, H0.
Qed.

Lemma holds_root_app (a b : list path) : holds_root (a ++ b) = holds_root a || holds_root b.
Proof. apply List.existsb_app. Qed.

(** With the marked paths detached, the children are those the removal
    leaves. *)
Lemma detach_marks_from (removes : Node -> bool) (kids : list Node) :
  List.Forall
    (fun k => forall R0, List.Forall (fun q => q = []) R0 ->
                 detach (R0 ++ marks removes k) k = remove_where removes k) kids ->
  forall (i : nat) (R : list path),
    List.Forall (enters_before i) R ->
    detach_children detach (R ++ marks_from removes i kids) i kids =
    prune_children removes (remove_where removes) kids.
Proof.
  induction 1 as [|k r IHk _ IHr]; intros i R HR; [reflexivity|].
  unfold marks_from. cbn [walk_children]. fold (marks_from removes (S i) r).
  cbn [detach_children prune_children].
  set (here := if is_element k && removes k then [[i]] else []).
  assert (Hstrip : strip_index i
                     (R ++ here ++ List.map (fun q => i :: q) (marks removes k) ++
                      marks_from removes (S i) r) =
                   (if is_element k && removes k then [[]] else []) ++ marks removes k).
  { rewrite !strip_index_app, (strip_index_before i R HR), strip_index_lifted.
    rewrite (strip_index_from i _ (marks_from_enter removes r (S i))).
    rewrite app_nil_r. subst here.
    destruct (is_element k && removes k); cbn; [rewrite Nat.eqb_refl|]; reflexivity. }
  rewrite Hstrip, holds_root_app, marks_no_root, orb_false_r.
  assert (Hrest : detach_children detach
                    (R ++ here ++ List.map (fun q => i :: q) (marks removes k) ++
                     marks_from removes (S i) r) (S i) r =
                  prune_children removes (remove_where removes) r).
  { replace (R ++ here ++ List.map (fun q => i :: q) (marks removes k) ++
             marks_from removes (S i) r)
      with ((R ++ here ++ List.map (fun q => i :: q) (marks removes k)) ++
            marks_from removes (S i) r) by (now rewrite <- !app_assoc).
    apply IHr. apply List.Forall_app. split; [apply enters_before_S, HR|].
    apply List.Forall_app. split; [|apply lifted_enter_before].
    subst here. destruct (is_element k && removes k); repeat constructor. }
  rewrite Hrest. destruct (is_element k && removes k); [reflexivity|].
  cbn [holds_root List.existsb app]. f_equal. apply (IHk [] (List.Forall_nil _)).
Qed.

Lemma detach_marks (removes : Node -> bool) (n : Node) (R0 : list path) :
  List.Forall (fun q => q = []) R0 ->
  detach (R0 ++ marks removes n) n = remove_where removes n.
Proof.
  revert R0. induction n as [d|d|tag attr kids IH] using Node_induction; intros R0 H0;
    try reflexivity.
  change (detach (R0 ++ marks removes (ElementNode tag attr kids)) (ElementNode tag attr kids))
    with (ElementNode tag attr
            (detach_children detach (R0 ++ marks_from removes 0 kids) 0 kids)).
  change (remove_where removes (ElementNode tag attr kids))
    with (ElementNode tag attr (prune_children removes (remove_where removes) kids)).
  f_equal.
  apply (detach_marks_from removes kids IH 0 R0). apply roots_enter_before, H0.
Qed.

(** The loop that removes elements while it walks a selection leaves the tree
    without the elements whose test holds of them as [Find] saw them. *)
Lemma each_remove_remove_where (removes : Node -> bool) (sel : Node) :
  each_remove removes sel = remove_where removes sel.
Proof.
  unfold each_remove. rewrite (loop_marks removes sel [] (List.Forall_nil _)).
  apply (detach_marks removes sel [] (List.Forall_nil _)).
Qed.

Lemma each_remove_doc_remove_where (removes : Node -> bool) (doc : Document) :
  each_remove_doc removes doc = remove_where_doc removes doc.
Proof.
  unfold each_remove_doc, remove_where_doc. f_equal.
  change (doc_elements doc) with (snapshot_from 0 (doc_children doc)).
  assert (Hloop : forall kids, List.Forall
            (fun k => forall R0, List.Forall (fun q => q = []) R0 ->
                 List.fold_left (each_step removes) (elements_below k) R0 =
                 R0 ++ marks removes k) kids).
  { intros kids. apply List.Forall_forall. intros k _ R0 H0. apply loop_marks, H0. }
  assert (Hdet : forall kids, List.Forall
            (fun k => forall R0, List.Forall (fun q => q = []) R0 ->
                 detach (R0 ++ marks removes k) k = remove_where removes k) kids).
  { intros kids. apply List.Forall_forall. intros k _ R0 H0. apply detach_marks, H0. }
  rewrite (loop_marks_from removes _ (Hloop _) 0 [] (List.Forall_nil _)).
  apply (detach_marks_from removes _ (Hdet _) 0 [] (List.Forall_nil _)).
Qed.

(** ** The blacklist sweep *)

Lemma blacklist_removes_only_if (sel : Node) :
  blacklist_removes sel = true ->
  GetTagName sel <> "body"%string /\ GetTagName sel <> "html"%string /\
  GetTagName sel <> "article"%string /\ GetTagName sel <> "main"%string /\
  IsWhitelisted (combined_class_id sel) = false /\
  IsBlacklisted (combined_class_id sel) = true /\
  (GetTextLength sel < 200 \/ (5 # 10 < CalculateLinkDensity sel)%Q).
Proof.
  unfold blacklist_removes. fold (combined_class_id sel).
  destruct (String.eqb (GetTagName sel) "body") eqn:E1; [discriminate|].
  destruct (String.eqb (GetTagName sel) "html") eqn:E2; [discriminate|].
  destruct (String.eqb (GetTagName sel) "article") eqn:E3; [discriminate|].
  destruct (String.eqb (GetTagName sel) "main") eqn:E4; [discriminate|].
  cbn [orb].
  destruct (IsWhitelisted (combined_class_id sel)); [discriminate|].
  destruct (IsBlacklisted (combined_class_id sel)); [|discriminate].
  intros H. apply String.eqb_neq in E1, E2, E3, E4.
  repeat split; try assumption.
  apply orb_true_iff in H as [H|H].
  - left. apply Z.ltb_lt. exact H.
  - right. apply Qgt_bool_iff in H. exact H.
Qed.

Lemma blacklist_keeps_long_block (sel : Node) :
  200 <= GetTextLength sel -> (CalculateLinkDensity sel <= 5 # 10)%Q ->
  blacklist_removes sel = false.
Proof.
  intros Hlen Hld. destruct (blacklist_removes sel) eqn:E; [|reflexivity].
  apply blacklist_removes_only_if in E as (_ & _ & _ & _ & _ & _ & [H|H]); [lia|].
  exfalso. apply (Qlt_not_le _ _ H Hld).
Qed.

(** C5, as the code has it.  The sweep removes an element on its own account
    only when the element is none of body, html, article and main, its class
    and id text is blacklisted and not whitelisted, and its text is shorter
    than 200 code points or its link density exceeds 0.5.  An element with at
    least 200 code points of text and a link density of at most 0.5 is never
    removed on its own account, and is in the document after the sweep
    whenever none of its ancestors is removed. *)
Theorem blacklist_sweep_spec :
  (forall sel : Node,
      blacklist_removes sel = true ->
      GetTagName sel <> "body"%string /\ GetTagName sel <> "html"%string /\
      GetTagName sel <> "article"%string /\ GetTagName sel <> "main"%string /\
      IsWhitelisted (combined_class_id sel) = false /\
      IsBlacklisted (combined_class_id sel) = true /\
      (GetTextLength sel < 200 \/ (5 # 10 < CalculateLinkDensity sel)%Q)) /\
  (forall (doc : Document) (p : path) (sel : Node),
      doc_at doc p = Some sel ->
      200 <= GetTextLength sel -> (CalculateLinkDensity sel <= 5 # 10)%Q ->
      List.Forall (fun a => blacklist_removes a = false) (ancestors doc p) ->
      exists p' : path,
        doc_at (blacklist_sweep doc) p' = Some (remove_where blacklist_removes sel)).
Proof.
  split.
  - exact blacklist_removes_only_if.
  - intros doc p sel Hat Hlen Hld Hanc.
    unfold doc_at, blacklist_sweep, remove_where_doc. cbn [doc_children].
    apply (prune_children_keeps_path blacklist_removes p (doc_children doc) sel Hat).
    rewrite (nodes_along_last p _ sel Hat). apply List.Forall_app. split.
    + unfold ancestors in Hanc. eapply List.Forall_impl; [|exact Hanc].
      intros a Ha. cbn beta in Ha. rewrite Ha. apply andb_false_r.
    + constructor; [|constructor].
      rewrite (blacklist_keeps_long_block sel Hlen Hld). apply andb_false_r.
Qed.

(** The theorem on a page whose body holds a long [div class="sidebar"]
    without links: the block is blacklisted and stays. *)
Lemma blacklist_sweep_spec_witness :
  IsBlacklisted (combined_class_id (sel_node doc_long_block [0; 0; 0]%nat)) = true /\
  exists p' : path,
    doc_at (blacklist_sweep doc_long_block) p' =
    Some (remove_where blacklist_removes (sel_node doc_long_block [0; 0; 0]%nat)).
Proof.
  split; [vm_compute; reflexivity|].
  apply (proj2 blacklist_sweep_spec doc_long_block [0; 0; 0]%nat).
  - vm_compute. reflexivity.
  - vm_compute. discriminate.
  - vm_compute. discriminate.
  - repeat constructor.
Defined.

(** C5, the claim as stated fails: on the page of the nested blocks the inner
    [div class="comment"] is blacklisted, has 299 code points of text and no
    link, and still is gone after the sweep, with its text, because the
    [div class="sidebar"] around it, of link density 598/899, is removed. *)
Lemma blacklist_sweep_nested_counterexample :
  exists sel : Node,
    doc_at doc_nested_blocks [0; 0; 0; 2]%nat = Some sel /\
    GetTagName sel = "div"%string /\
    IsBlacklisted (combined_class_id sel) = true /\
    GetTextLength sel = 299 /\
    (CalculateLinkDensity sel == 0)%Q /\
    blacklist_removes sel = false /\
    List.map (fun pn => GetTagName (snd pn)) (doc_elements (blacklist_sweep doc_nested_blocks)) =
    ["html"; "body"]%string /\
    TextOfNodes (doc_children (StripUnlikelyCandidates doc_nested_blocks)) = [].
Proof.
  eexists. split; [vm_compute; reflexivity|].
  repeat split; vm_compute; reflexivity.
Qed.

(** ** Trees *)

Lemma Text_element (tag : string) (attr : list (string * gostring)) (kids : list Node) :
  Text (ElementNode tag attr kids) = TextOfNodes kids.
Proof.
  cbn [Text]. induction kids as [|k r IH]; [reflexivity|].
  cbn [TextOfNodes List.fold_right]. now rewrite IH.
Qed.


Lemma under_element (Q : Node -> Prop) (tag : string) (attr : list (string * gostring))
    (kids : list Node) :
  under Q (ElementNode tag attr kids) <->
  List.Forall (fun k => (is_element k = true -> Q k) /\ under Q k) kids.
Proof.
  cbn [under]. induction kids as [|k r IH]; [split; [constructor|exact (fun _ => I)]|].
  rewrite IH. split.
  - intros (Hk & Hu & Hr). constructor; [split|]; assumption.
  - intros H. inversion H as [|? ? [Hk Hu] Hr]; subst. auto.
Qed.







(** ** Blank text *)

Lemma nonws_app (a b : gostring) : nonws (a ++ b) = nonws a ++ nonws b.
Proof. apply List.filter_app. Qed.

Lemma nonws_nil_iff (s : gostring) :
  nonws s = [] <-> List.Forall (fun c => IsSpace c = true) s.
Proof.
  induction s as [|c r IH]; [split; [constructor|reflexivity]|].
  unfold nonws in *. cbn [List.filter]. destruct (IsSpace c) eqn:E; cbn [negb].
  - rewrite IH. split; [intros H; constructor; assumption|].
    intros H. inversion H; assumption.
  - split; [discriminate|]. intros H. inversion H as [|? ? Hc ?]; subst.
    cbn beta in Hc. congruence.
Qed.

Lemma trim_left_spaces (s : gostring) :
  List.Forall (fun c => IsSpace c = true) s -> trim_left s = [].
Proof.
  induction 1 as [|c r Hc _ IH]; [reflexivity|]. cbn [trim_left]. now rewrite Hc.
Qed.

Lemma TrimSpace_nil_iff (s : gostring) : TrimSpace s = [] <-> nonws s = [].
Proof.
  split.
  - intros H. destruct (TrimSpace_split s) as (l & r & Hs & Hl & Hr).
    rewrite H in Hs. rewrite Hs, nonws_app. cbn [app].
    apply nonws_nil_iff in Hl, Hr. now rewrite Hl, Hr.
  - intros H. apply nonws_nil_iff in H. unfold TrimSpace.
    now rewrite (trim_left_spaces s H).
Qed.


Lemma TextOfNodes_cons (k : Node) (r : list Node) :
  TextOfNodes (k :: r) = Text k ++ TextOfNodes r.
Proof. reflexivity. Qed.



(** ** Markup with its tags stripped *)











(** ** Rendering *)















(** ** Attributes *)














(** ** Passes of the postprocessor on plain content *)

























(* ===================================================================== *)
(** * Further properties of the packages *)
(* ===================================================================== *)

(** ** Trimmed and collapsed text *)

Lemma trim_left_idem (s : gostring) : trim_left (trim_left s) = trim_left s.
Proof.
  induction s as [|c r IH]; [reflexivity|].
  cbn [trim_left]. destruct (IsSpace c) eqn:Hc; [exact IH|].
  cbn [trim_left]. now rewrite Hc.
Qed.

Lemma trim_left_app_head (s t : gostring) :
  s <> [] -> trim_left s = s -> trim_left (s ++ t) = s ++ t.
Proof.
  destruct s as [|c r]; [congruence|]. intros _ H.
  cbn [trim_left app] in *. destruct (IsSpace c); [|reflexivity].
  exfalso. assert (Hlen : List.length (trim_left r) = S (List.length r)) by now rewrite H.
  destruct (trim_left_split r) as (ws & Hr & _).
  apply (f_equal (@List.length _)) in Hr. rewrite length_app in Hr. lia.
Qed.

(** A text with no white space at either end. *)
Lemma TrimSpace_ends (s : gostring) :
  trim_left (TrimSpace s) = TrimSpace s /\
  trim_left (List.rev (TrimSpace s)) = List.rev (TrimSpace s).
Proof.
  unfold TrimSpace. split.
  - destruct (trim_left_split (List.rev (trim_left s))) as (ws & Hs & _).
    set (z := trim_left (List.rev (trim_left s))) in *.
    assert (Hw : trim_left s = List.rev z ++ List.rev ws)
      by (now rewrite <- rev_app_distr, <- Hs, rev_involutive).
    destruct (List.rev z) as [|c r] eqn:Hz; [reflexivity|].
    assert (Hidem := trim_left_idem s). rewrite Hw in Hidem.
    cbn [app trim_left] in Hidem |- *. destruct (IsSpace c); [|reflexivity].
    exfalso. remember (r ++ List.rev ws) as x. clear Heqx.
    apply (f_equal (@List.length _)) in Hidem.
    destruct (trim_left_split x) as (ws' & Hr & _).
    apply (f_equal (@List.length _)) in Hr. rewrite length_app in Hr.
    cbn [List.length] in Hidem. lia.
  - rewrite rev_involutive. apply trim_left_idem.
Qed.

Lemma TrimSpace_fixed (s : gostring) :
  trim_left s = s -> trim_left (List.rev s) = List.rev s -> TrimSpace s = s.
Proof.
  intros H1 H2. unfold TrimSpace. rewrite H1, H2. apply rev_involutive.
Qed.

Lemma TrimSpace_idem (s : gostring) : TrimSpace (TrimSpace s) = TrimSpace s.
Proof.
  destruct (TrimSpace_ends s) as [H1 H2]. now apply TrimSpace_fixed.
Qed.

Lemma tidy_weaken (s : gostring) : tidy true s = true -> tidy false s = true.
Proof.
  destruct s as [|c r]; [reflexivity|]. cbn [tidy].
  destruct (re_space c); [|auto]. rewrite andb_false_r. discriminate.
Qed.

Lemma tidy_collapse (b : bool) (s : gostring) : tidy b (collapse_from b s) = true.
Proof.
  revert b. induction s as [|c r IH]; intros b; [reflexivity|].
  cbn [collapse_from]. destruct (re_space c) eqn:Hc.
  - destruct b; [apply IH|]. cbn [tidy]. change (re_space 32) with true.
    cbn [Z.eqb Pos.eqb negb andb]. apply IH.
  - cbn [tidy]. rewrite Hc. apply IH.
Qed.

Lemma collapse_tidy (b : bool) (s : gostring) : tidy b s = true -> collapse_from b s = s.
Proof.
  revert b. induction s as [|c r IH]; intros b H; [reflexivity|].
  cbn [tidy collapse_from] in *. destruct (re_space c).
  - apply andb_true_iff in H as [H Hr]. apply andb_true_iff in H as [Hc Hb].
    apply Z.eqb_eq in Hc. subst c. destruct b; [discriminate|].
    now rewrite (IH true Hr).
  - now rewrite (IH false H).
Qed.

Lemma tidy_suffix (b : bool) (l s : gostring) : tidy b (l ++ s) = true -> tidy false s = true.
Proof.
  revert b. induction l as [|c r IH]; intros b H.
  - destruct b; [now apply tidy_weaken|exact H].
  - cbn [app tidy] in H. destruct (re_space c).
    + apply andb_true_iff in H as [_ H]. now apply (IH true).
    + now apply (IH false).
Qed.

Lemma tidy_prefix (b : bool) (s r : gostring) : tidy b (s ++ r) = true -> tidy b s = true.
Proof.
  revert b. induction s as [|c s IH]; intros b H; [reflexivity|].
  cbn [app tidy] in *. destruct (re_space c).
  - apply andb_true_iff in H as [H Hr]. rewrite H. now apply (IH true).
  - now apply (IH false).
Qed.

Lemma tidy_TrimSpace (s : gostring) : tidy false s = true -> tidy false (TrimSpace s) = true.
Proof.
  intros H. destruct (TrimSpace_split s) as (l & r & Hs & _).
  rewrite Hs in H. apply tidy_suffix in H. now apply tidy_prefix in H.
Qed.

Lemma NormalizeText_tidy (text : gostring) : tidy false (NormalizeText text) = true.
Proof.
  unfold NormalizeText, collapse_ws. apply tidy_TrimSpace, tidy_collapse.
Qed.

Lemma tidy_spaces (b : bool) (s : gostring) :
  tidy b s = true -> Forall (fun r => re_space r = true -> r = 32) s.
Proof.
  revert b. induction s as [|c r IH]; intros b H; constructor.
  - cbn [tidy] in H. intros Hc. rewrite Hc in H.
    apply andb_true_iff in H as [H _]. apply andb_true_iff in H as [H _].
    now apply Z.eqb_eq.
  - cbn [tidy] in H. destruct (re_space c).
    + apply andb_true_iff in H as [_ H]. now apply (IH true).
    + now apply (IH false).
Qed.

(** [NormalizeText] yields a normal form: a second pass changes nothing, no
    white space is left at either end, and the only [\s] runes left are
    single spaces (no tab, no line break, no run of spaces). *)
Theorem NormalizeText_normal_form (text : gostring) :
  NormalizeText (NormalizeText text) = NormalizeText text /\
  TrimSpace (NormalizeText text) = NormalizeText text /\
  collapse_ws (NormalizeText text) = NormalizeText text /\
  Forall (fun r => re_space r = true -> r = 32) (NormalizeText text).
Proof.
  assert (Hc := collapse_tidy false _ (NormalizeText_tidy text)).
  assert (Ht : TrimSpace (NormalizeText text) = NormalizeText text)
    by (unfold NormalizeText; apply TrimSpace_idem).
  repeat split.
  - unfold NormalizeText at 1. unfold collapse_ws. now rewrite Hc.
  - exact Ht.
  - exact Hc.
  - apply (tidy_spaces false), NormalizeText_tidy.
Qed.

(** ** Words, sentences and white space *)

Lemma fields_from_nil_iff (cur s : gostring) :
  fields_from cur s = [] <-> cur = [] /\ nonws s = [].
Proof.
  revert cur. induction s as [|c r IH]; intros cur.
  - cbn. destruct cur; split; intros H; try tauto; try discriminate.
    destruct H; discriminate.
  - cbn [fields_from nonws List.filter]. destruct (IsSpace c) eqn:Hc; cbn [negb].
    + destruct cur as [|x cur].
      * apply (IH []).
      * split; [discriminate|]. intros [H _]. discriminate.
    + rewrite (IH (c :: cur)). split; intros [H1 H2]; discriminate.
Qed.

Lemma fields_across_space (a b cur : gostring) (c : rune) :
  IsSpace c = true ->
  fields_from cur (a ++ c :: b) = fields_from cur a ++ fields_from [] b.
Proof.
  intros Hc. revert cur. induction a as [|x a IH]; intros cur.
  - cbn [app fields_from]. rewrite Hc. destruct cur; reflexivity.
  - cbn [app fields_from]. destruct (IsSpace x).
    + destruct cur; rewrite IH; reflexivity.
    + apply IH.
Qed.

(** [CountWords] adds up across white space: the words of two texts put
    together with a white space rune between them are the words of the one
    and the words of the other. *)
Theorem CountWords_across_space (a b : gostring) (c : rune) (Hc : IsSpace c = true) :
  CountWords (a ++ c :: b) = CountWords a + CountWords b.
Proof.
  rewrite !CountWords_fields. unfold Fields.
  rewrite (fields_across_space a b [] c Hc), length_app. lia.
Qed.

Lemma CountWords_across_space_witness :
  IsSpace 10 = true /\
  CountWords (runes "two words" ++ 10 :: runes "and three more") =
  CountWords (runes "two words") + CountWords (runes "and three more").
Proof.
  split; [reflexivity|]. apply (CountWords_across_space _ _ 10). reflexivity.
Defined.

(** A text holds no word exactly when it is white space only, which is when
    its normal form is empty; a text with a word has a positive word count. *)
Theorem IsWhitespaceOnly_no_words (text : gostring) :
  (IsWhitespaceOnly text = true <-> CountWords text = 0) /\
  (IsWhitespaceOnly text = true <-> NormalizeText text = []) /\
  (IsWhitespaceOnly text = false <-> 0 < CountWords text).
Proof.
  assert (Hw : IsWhitespaceOnly text = true <-> nonws text = []).
  { unfold IsWhitespaceOnly. rewrite <- TrimSpace_nil_iff.
    destruct (TrimSpace text); cbn; split; intros H; congruence. }
  assert (Hf : CountWords text = 0 <-> nonws text = []).
  { rewrite CountWords_fields. unfold Fields.
    destruct (fields_from_nil_iff [] text) as [H1 H2]. split.
    - intros H. destruct (fields_from [] text); [now apply H1|discriminate].
    - intros H. rewrite H2; [reflexivity|now split]. }
  assert (Hn : NormalizeText text = [] <-> nonws text = []).
  { unfold NormalizeText. rewrite TrimSpace_nil_iff.
    destruct (fields_from_nil_iff [] (collapse_ws text)) as [H1 H2].
    destruct (fields_from_nil_iff [] text) as [H3 H4].
    unfold collapse_ws in *. rewrite (fields_collapse text [] false) in H1, H2 by discriminate.
    split; intros H.
    - apply H3, H2. now split.
    - apply H1, H4. now split. }
  split; [|split].
  - now rewrite Hw, Hf.
  - now rewrite Hw, Hn.
  - rewrite <- not_true_iff_false, Hw, <- Hf, CountWords_fields. lia.
Qed.

Lemma count_sentences_loop_bounds (count : Z) (text : gostring) :
  count <= count_sentences_loop count text <= count + rlen text.
Proof.
  unfold rlen. revert count. induction text as [|r rest IH]; intros count.
  - cbn. lia.
  - cbn [count_sentences_loop List.length].
    specialize (IH (if sentence_end r then count + 1 else count)).
    destruct (sentence_end r); lia.
Qed.

Lemma blen_pos (c : rune) (s : gostring) : 0 < blen (c :: s).
Proof.
  pose proof (blen_nonneg s) as H. change (blen (c :: s)) with (RuneLen c + blen s).
  unfold RuneLen.
  repeat match goal with |- context [if ?b then _ else _] => destruct b end; lia.
Qed.

(** [CountSentences] is 0 for the empty text only: a text that is not empty
    counts as one sentence at least, whether it holds a sentence end or not,
    and never as more sentences than it has runes. *)
Theorem CountSentences_bounds (text : gostring) :
  (CountSentences text = 0 <-> text = []) /\
  (text <> [] -> 1 <= CountSentences text <= rlen text).
Proof.
  pose proof (count_sentences_loop_bounds 0 text) as Hb.
  unfold CountSentences. destruct text as [|c r].
  - split; [split; reflexivity|congruence].
  - pose proof (blen_pos c r) as Hp.
    assert (Hl : 1 <= rlen (c :: r)) by (unfold rlen; cbn [List.length]; lia).
    destruct (count_sentences_loop 0 (c :: r) =? 0) eqn:E; cbn [andb].
    + destruct (blen (c :: r) >? 0) eqn:E2; [|lia].
      split; [split; [lia|discriminate]|]. intros _. lia.
    + apply Z.eqb_neq in E. split; [split; [lia|discriminate]|]. intros _. lia.
Qed.

(** ** The text of the links *)

Lemma rlen_app (a b : gostring) : rlen (a ++ b) = rlen a + rlen b.
Proof. unfold rlen. rewrite length_app. lia. Qed.

Lemma fold_left_add_from {A : Type} (f : A -> Z) (l : list A) (z : Z) :
  List.fold_left (fun acc x => acc + f x) l z =
  z + List.fold_left (fun acc x => acc + f x) l 0.
Proof.
  revert z. induction l as [|x l IH]; intros z; cbn [List.fold_left]; [lia|].
  rewrite (IH (z + f x)), (IH (0 + f x)). lia.
Qed.

Lemma rlen_Join (elems : list gostring) (sep : gostring) :
  rlen (Join elems sep) =
  List.fold_left (fun acc e => acc + rlen e) elems 0 +
  rlen sep * Z.max 0 (Z.of_nat (List.length elems) - 1).
Proof.
  induction elems as [|e rest IH].
  - cbn [Join List.fold_left List.length]. change (rlen []) with 0.
    rewrite Z.max_l by lia. lia.
  - cbn [List.fold_left]. rewrite fold_left_add_from.
    destruct rest as [|e' rest'].
    + cbn [Join List.fold_left List.length]. rewrite Z.max_l by lia. lia.
    + change (Join (e :: e' :: rest') sep) with (e ++ sep ++ Join (e' :: rest') sep).
      rewrite !rlen_app, IH.
      rewrite !Z.max_r by (cbn [List.length]; lia).
      cbn [List.length]. nia.
Qed.

Lemma link_texts_total (links : list (path * Node)) :
  List.fold_left (fun totalLen s => totalLen + GetTextLength (snd s)) links 0 =
  List.fold_left (fun acc e => acc + rlen e)
    (List.filter (fun text => negb (is_empty text))
       (List.map (fun s => GetText (snd s)) links)) 0.
Proof.
  induction links as [|s links IH]; [reflexivity|].
  cbn [List.fold_left List.map List.filter].
  rewrite fold_left_add_from, IH. unfold GetTextLength.
  destruct (GetText (snd s)) as [|c r] eqn:E; cbn [is_empty negb].
  - change (rlen []) with 0. lia.
  - cbn [List.fold_left]. rewrite (fold_left_add_from _ _ (0 + _)). lia.
Qed.

(** [GetLinkText] and [GetLinkTextLength] count the same runes, apart from
    the spaces [GetLinkText] puts between one link text and the next: with
    [k] links of non-empty text, the text is [k - 1] runes longer than the
    length. *)
Theorem GetLinkText_length (sel : Node) :
  rlen (GetLinkText sel) =
  GetLinkTextLength sel + Z.max 0 (Z.of_nat (List.length (link_texts sel)) - 1).
Proof.
  unfold GetLinkText, GetLinkTextLength. rewrite rlen_Join, link_texts_total.
  unfold link_texts. change (rlen [32]) with 1. lia.
Qed.

(** ** URLs *)

Lemma trim_left_cons (c : rune) (s : gostring) :
  IsSpace c = false -> trim_left (c :: s) = c :: s.
Proof. intros H. cbn [trim_left]. now rewrite H. Qed.

Lemma TrimSpace_prefixed (p s : gostring) :
  trim_left p = p -> trim_left (List.rev p) = List.rev p -> p <> [] ->
  TrimSpace (p ++ TrimSpace s) = p ++ TrimSpace s.
Proof.
  intros Hp Hrp Hne. destruct (TrimSpace_ends s) as [H1 H2].
  apply TrimSpace_fixed.
  - now apply trim_left_app_head.
  - rewrite rev_app_distr. destruct (List.rev (TrimSpace s)) as [|c r] eqn:E.
    + exact Hrp.
    + rewrite <- E in *. apply trim_left_app_head; [rewrite E; discriminate|exact H2].
Qed.

Lemma HasPrefix_app (p s : gostring) : HasPrefix (p ++ s) p = true.
Proof.
  induction p as [|c p IH]; [destruct s; reflexivity|].
  cbn [app HasPrefix]. unfold rune_eqb. now rewrite Z.eqb_refl, IH.
Qed.

Lemma IsValidURL_NormalizeURL (url : gostring) : IsValidURL (NormalizeURL url) = true.
Proof.
  unfold IsValidURL, NormalizeURL.
  destruct (HasPrefix (TrimSpace url) (runes "http://")) eqn:E1; cbn [negb andb].
  - now rewrite TrimSpace_idem, E1.
  - destruct (HasPrefix (TrimSpace url) (runes "https://")) eqn:E2; cbn [negb].
    + rewrite TrimSpace_idem, E2. apply orb_true_r.
    + rewrite TrimSpace_prefixed by (try reflexivity; discriminate).
      rewrite (HasPrefix_app (runes "https://")). apply orb_true_r.
Qed.

(** A URL comes out of [NormalizeURL] in a form [IsValidURL] accepts,
    whatever went in (the empty string becomes [https://]); a second pass
    changes nothing, and a URL that was valid already is only trimmed. *)
Theorem NormalizeURL_valid (url : gostring) :
  IsValidURL (NormalizeURL url) = true /\
  NormalizeURL (NormalizeURL url) = NormalizeURL url /\
  (IsValidURL url = true -> NormalizeURL url = TrimSpace url) /\
  (IsValidURL url = false -> NormalizeURL url = runes "https://" ++ TrimSpace url).
Proof.
  assert (Hv : forall u, IsValidURL u = true -> NormalizeURL u = TrimSpace u).
  { intros u. unfold IsValidURL, NormalizeURL. intros H.
    apply orb_true_iff in H as [H|H]; rewrite H; cbn [negb andb]; [reflexivity|].
    now rewrite andb_false_r. }
  assert (Hn : forall u, IsValidURL u = false ->
                         NormalizeURL u = runes "https://" ++ TrimSpace u).
  { intros u. unfold IsValidURL, NormalizeURL. intros H.
    apply orb_false_iff in H as [H1 H2]. now rewrite H1, H2. }
  split; [apply IsValidURL_NormalizeURL|]. split; [|split; [apply Hv|apply Hn]].
  rewrite (Hv (NormalizeURL url)) by apply IsValidURL_NormalizeURL.
  destruct (IsValidURL url) eqn:E.
  - rewrite (Hv url E). apply TrimSpace_idem.
  - rewrite (Hn url E). apply TrimSpace_prefixed; try reflexivity; discriminate.
Qed.

Section FromURLProperties.

Variable Time : Type.
Variable fetch_failure : Type.
Variable Fetch : gostring -> gostring + fetch_failure.
Variable ExtractWithURL : gostring -> gostring -> Article Time + ExtractionError.

(** [ExtractFromURL] never reports an invalid URL: whatever it is given, the
    URL that goes to [Fetch] passes [IsValidURL], so the call fails with the
    error of the request or of the extraction, or it returns the article, with
    the URL that was fetched. *)
Theorem ExtractFromURL_never_invalid (url : gostring) :
  let fetched := if IsValidURL url then url else NormalizeURL url in
  IsValidURL fetched = true /\
  ExtractFromURL Time fetch_failure Fetch ExtractWithURL url =
  match Fetch fetched with
  | inr err => inr (fetch_error fetch_failure "fetch" fetched err)
  | inl html =>
      match ExtractWithURL html fetched with
      | inr err => inr (extraction_error fetch_failure err)
      | inl article =>
          inl {| Title := Title article;
                 Content := Content article;
                 TextContent := TextContent article;
                 Excerpt := Excerpt article;
                 Author := Author article;
                 PublishedAt := PublishedAt article;
                 LeadImage := LeadImage article;
                 ArticleURL := fetched;
                 WordCount := WordCount article;
                 ArticleScore := ArticleScore article;
                 Confidence := Confidence article |}
      end
  end.
Proof.
  cbv zeta. unfold ExtractFromURL. destruct (IsValidURL url) eqn:E; cbn [negb].
  - split; [exact E|reflexivity].
  - rewrite IsValidURL_NormalizeURL. cbn [negb].
    split; [reflexivity|reflexivity].
Qed.

End FromURLProperties.

(** ** Relative URLs in the content *)

Lemma HasPrefix_firstn (s p : gostring) (n : nat) :
  HasPrefix s p = true -> (List.length p <= n)%nat -> HasPrefix (List.firstn n s) p = true.
Proof.
  revert s n. induction p as [|c p IH]; intros s n H Hn; [destruct (List.firstn n s); reflexivity|].
  destruct s as [|x s]; [discriminate|]. cbn [List.length] in Hn.
  destruct n as [|n]; [lia|]. cbn [List.firstn HasPrefix] in *.
  apply andb_true_iff in H as [Hx H]. rewrite Hx. apply IH; [exact H|lia].
Qed.

Lemma HasPrefix_app_l (s p t : gostring) :
  HasPrefix s p = true -> HasPrefix (s ++ t) p = true.
Proof.
  revert s. induction p as [|c p IH]; intros s H; [destruct (s ++ t); reflexivity|].
  destruct s as [|x s]; [discriminate|]. cbn [app HasPrefix] in *.
  apply andb_true_iff in H as [Hx H]. rewrite Hx. now apply IH.
Qed.

Lemma Index_bound (s substr : gostring) (i : nat) :
  Index s substr = Some i -> (i + List.length substr <= List.length s)%nat.
Proof.
  revert i. induction s as [|c s IH]; intros i H.
  - cbn [Index] in H. destruct substr; [injection H as <-; cbn; lia|discriminate].
  - cbn [Index] in H. destruct (HasPrefix (c :: s) substr) eqn:E.
    + injection H as <-. apply HasPrefix_iff in E as (t & Ht).
      rewrite Ht, length_app. lia.
    + destruct (Index s substr) as [j|] eqn:Ej; [|discriminate].
      injection H as <-. specialize (IH j eq_refl). cbn [List.length]. lia.
Qed.

Lemma LastIndex_from (s substr : gostring) (i : nat) :
  LastIndex s substr = Some i -> HasPrefix (List.skipn i s) substr = true.
Proof.
  revert i. induction s as [|c s IH]; intros i H.
  - cbn [LastIndex] in H. destruct (HasPrefix [] substr) eqn:E; [|discriminate].
    injection H as <-. exact E.
  - cbn [LastIndex] in H. destruct (LastIndex s substr) as [j|] eqn:Ej.
    + injection H as <-. cbn [List.skipn]. now apply IH.
    + destruct (HasPrefix (c :: s) substr) eqn:E; [|discriminate].
      injection H as <-. exact E.
Qed.

Lemma LastIndex_app (a s substr : gostring) (j : nat) :
  LastIndex s substr = Some j ->
  LastIndex (a ++ s) substr = Some (List.length a + j)%nat.
Proof.
  intros H. induction a as [|c a IH]; [exact H|].
  cbn [app LastIndex List.length]. now rewrite IH.
Qed.

Lemma LastIndex_absent (s : list Z) (c : Z) :
  Forall (fun r => r <> c) s -> LastIndex s [c] = None.
Proof.
  induction 1 as [|x s Hx _ IH]; [reflexivity|].
  cbn [LastIndex HasPrefix]. rewrite IH. unfold rune_eqb.
  apply Z.eqb_neq in Hx. now rewrite Hx.
Qed.

(** The literals of the source, as rune lists. *)
Ltac norm_runes :=
  repeat match goal with
         | |- context [runes ?s] =>
             let v := eval vm_compute in (runes s) in change (runes s) with v
         | H : context [runes ?s] |- _ =>
             let v := eval vm_compute in (runes s) in change (runes s) with v in H
         end.

Ltac prefix_split H :=
  let r := fresh "r" in
  let E := fresh "E" in
  apply HasPrefix_iff in H as [r E]; subst.

(** Whatever the base, the relative reference ends the resolved URL. *)
Lemma resolveURL_suffix (base relative : gostring) :
  exists front : gostring, resolveURL base relative = front ++ relative.
Proof.
  unfold resolveURL.
  destruct (HasPrefix relative (runes "//")).
  { destruct (HasPrefix base (runes "https:")); eauto. }
  destruct (HasPrefix relative (runes "/")).
  { destruct (Index base (runes "://")) as [idx|]; [|exists []; reflexivity].
    destruct (Index (List.skipn (idx + 3) base) (runes "/")); eauto. }
  destruct (LastIndex base (runes "/")); [eauto|].
  exists (base ++ runes "/"). now rewrite <- app_assoc.
Qed.

Lemma HasPrefix_nil (s : gostring) : HasPrefix s [] = true.
Proof. destruct s; reflexivity. Qed.

Ltac step_runes :=
  repeat (progress (cbn [Nat.add List.firstn List.skipn app HasPrefix rune_eqb Z.eqb Pos.eqb
                         andb orb Index LastIndex option_map]; rewrite ?HasPrefix_nil)).

Ltac resolve_absolute rest :=
  unfold resolveURL, isAbsoluteURL;
  destruct (HasPrefix _ (runes "//")) eqn:E1;
  [ norm_runes; prefix_split E1; step_runes; reflexivity |];
  destruct (HasPrefix _ (runes "/")) eqn:E2;
  [ norm_runes; step_runes;
    destruct (Index _ _) as [hostEnd|]; step_runes; reflexivity |];
  norm_runes; cbn [app LastIndex];
  destruct (LastIndex rest _) as [j|]; step_runes; reflexivity.

Lemma resolveURL_http (rest relative : gostring) :
  isAbsoluteURL (resolveURL (runes "http://" ++ rest) relative) = true.
Proof. resolve_absolute rest. Qed.

Lemma resolveURL_https (rest relative : gostring) :
  isAbsoluteURL (resolveURL (runes "https://" ++ rest) relative) = true.
Proof. resolve_absolute rest. Qed.

Lemma resolveURL_absolute (base relative : gostring) :
  HasPrefix base (runes "http://") || HasPrefix base (runes "https://") = true ->
  isAbsoluteURL (resolveURL base relative) = true.
Proof.
  intros H. apply orb_true_iff in H as [H|H]; apply HasPrefix_iff in H as [rest ->].
  - apply resolveURL_http.
  - apply resolveURL_https.
Qed.

(** Against a base that starts with [http://] or [https://], every reference
    resolves to a URL that [isAbsoluteURL] accepts, and the reference is the
    end of that URL. *)
Theorem resolveURL_absolute_keeps_reference (base relative : gostring)
    (Hbase : HasPrefix base (runes "http://") || HasPrefix base (runes "https://") = true) :
  isAbsoluteURL (resolveURL base relative) = true /\
  exists front : gostring, resolveURL base relative = front ++ relative.
Proof.
  split; [now apply resolveURL_absolute|apply resolveURL_suffix].
Qed.

Lemma resolveURL_absolute_keeps_reference_witness :
  HasPrefix (runes "https://example.com/news/today.html") (runes "http://") ||
  HasPrefix (runes "https://example.com/news/today.html") (runes "https://") = true /\
  resolveURL (runes "https://example.com/news/today.html") (runes "/img/a.png") =
  runes "https://example.com/img/a.png" /\
  resolveURL (runes "https://example.com/news/today.html") (runes "next.html") =
  runes "https://example.com/news/next.html" /\
  isAbsoluteURL (resolveURL (runes "https://example.com/news/today.html") (runes "next.html")) = true.
Proof.
  split; [reflexivity|]. split; [reflexivity|]. split; [reflexivity|].
  apply (resolveURL_absolute_keeps_reference
           (runes "https://example.com/news/today.html") (runes "next.html")).
  reflexivity.
Defined.

(** A base without a path loses its host: when nothing follows the host, not
    even a slash, the last slash of the base is the one before the host, and
    a reference that does not start with a slash is put in the place of the
    host. *)
Theorem resolveURL_base_without_path (scheme host relative : gostring)
    (Hhost : Forall (fun r => r <> 47) host)
    (Hrel : HasPrefix relative (runes "/") = false) :
  resolveURL (scheme ++ runes "://" ++ host) relative = scheme ++ runes "://" ++ relative.
Proof.
  unfold resolveURL. rewrite Hrel.
  assert (H2 : HasPrefix relative (runes "//") = false).
  { destruct (HasPrefix relative (runes "//")) eqn:E; [|reflexivity].
    apply HasPrefix_iff in E as [r ->]. discriminate Hrel. }
  rewrite H2.
  assert (Hl : LastIndex (scheme ++ runes "://" ++ host) (runes "/") =
               Some (List.length scheme + 2)%nat).
  { apply LastIndex_app. norm_runes. cbn [app LastIndex].
    pose proof (LastIndex_absent host 47 Hhost) as Ha.
    match goal with
    | |- context [LastIndex host ?p] =>
        replace (LastIndex host p) with (@None nat) by (symmetry; exact Ha)
    end.
    step_runes. reflexivity. }
  rewrite Hl.
  replace (List.length scheme + 2 + 1)%nat with (List.length scheme + 3)%nat by lia.
  rewrite List.firstn_app_2. norm_runes. cbn [app List.firstn].
  rewrite List.firstn_O, <- app_assoc. reflexivity.
Qed.

Lemma resolveURL_base_without_path_witness :
  Forall (fun r => r <> 47) (runes "example.com") /\
  HasPrefix (runes "page.html") (runes "/") = false /\
  resolveURL (runes "https" ++ runes "://" ++ runes "example.com") (runes "page.html") =
  runes "https" ++ runes "://" ++ runes "page.html".
Proof.
  assert (H : Forall (fun r => r <> 47) (runes "example.com"))
    by (repeat constructor; discriminate).
  split; [exact H|]. split; [reflexivity|].
  exact (resolveURL_base_without_path (runes "https") (runes "example.com")
           (runes "page.html") H eq_refl).
Defined.

Lemma Attr_SetAttr (attr : list (string * gostring)) (name : string) (val : gostring) :
  Attr (SetAttr attr name val) name = Some val.
Proof.
  induction attr as [|[k v] rest IH]; cbn [SetAttr Attr fst].
  - now rewrite String.eqb_refl.
  - destruct (String.eqb k name) eqn:E; cbn [Attr]; rewrite E; [reflexivity|exact IH].
Qed.

Lemma each_attr_ext (f g : string -> list (string * gostring) -> list (string * gostring))
    (n : Node) :
  (forall tag attr, f tag attr = g tag attr) -> each_attr f n = each_attr g n.
Proof.
  intros Hfg. induction n as [d|d|tag attr kids IH] using Node_induction; try reflexivity.
  cbn [each_attr]. rewrite Hfg. f_equal.
  induction IH as [|k r Hk _ IHr]; [reflexivity|]. cbn [List.map]. now rewrite Hk, IHr.
Qed.

Lemma each_attr_compose (f g : string -> list (string * gostring) -> list (string * gostring))
    (n : Node) :
  each_attr g (each_attr f n) = each_attr (fun tag attr => g tag (f tag attr)) n.
Proof.
  induction n as [d|d|tag attr kids IH] using Node_induction; try reflexivity.
  cbn [each_attr]. f_equal. rewrite List.map_map.
  induction IH as [|k r Hk _ IHr]; [reflexivity|]. cbn [List.map]. now rewrite Hk, IHr.
Qed.

Lemma Text_each_attr (f : string -> list (string * gostring) -> list (string * gostring))
    (n : Node) :
  Text (each_attr f n) = Text n.
Proof.
  induction n as [d|d|tag attr kids IH] using Node_induction; try reflexivity.
  cbn [each_attr]. rewrite !Text_element.
  induction IH as [|k r Hk _ IHr]; [reflexivity|].
  cbn [List.map]. rewrite !TextOfNodes_cons. now rewrite Hk, IHr.
Qed.

Lemma is_element_each_attr (f : string -> list (string * gostring) -> list (string * gostring))
    (n : Node) :
  is_element (each_attr f n) = is_element n.
Proof. destruct n; reflexivity. Qed.

(** What the loop leaves on every element it visits holds below the result. *)
Lemma under_each_attr (Q : Node -> Prop)
    (f : string -> list (string * gostring) -> list (string * gostring)) (n : Node) :
  (forall tag attr kids, Q (ElementNode tag (f tag attr) kids)) ->
  (forall k, is_element k = true -> Q (each_attr f k)) /\ under Q (each_attr f n).
Proof.
  intros HQ. split.
  - intros [d|d|tag attr kids] Hk; try discriminate. apply HQ.
  - induction n as [d|d|tag attr kids IH] using Node_induction; try exact I.
    cbn [each_attr]. rewrite under_element.
    induction IH as [|k r Hk _ IHr]; [constructor|]. cbn [List.map].
    constructor; [|exact IHr]. split; [|exact Hk].
    destruct k as [d|d|t a ks]; try discriminate. intros _. apply HQ.
Qed.

Lemma under_find_each_attr (Q : Node -> Prop)
    (f : string -> list (string * gostring) -> list (string * gostring)) (sel : Node) :
  (forall tag attr kids, Q (ElementNode tag (f tag attr) kids)) ->
  under Q (find_each_attr f sel).
Proof.
  intros HQ. destruct sel as [d|d|tag attr kids]; try exact I.
  cbn [find_each_attr]. rewrite under_element.
  induction kids as [|k r IH]; [constructor|]. cbn [List.map].
  constructor; [|exact IH]. split.
  - destruct k as [d|d|t a ks]; try discriminate. intros _. apply HQ.
  - apply (under_each_attr Q f k HQ).
Qed.

Lemma find_each_attr_compose
    (f g : string -> list (string * gostring) -> list (string * gostring)) (sel : Node) :
  find_each_attr g (find_each_attr f sel) =
  find_each_attr (fun tag attr => g tag (f tag attr)) sel.
Proof.
  destruct sel as [d|d|tag attr kids]; try reflexivity.
  cbn [find_each_attr]. f_equal. rewrite List.map_map.
  induction kids as [|k r IH]; [reflexivity|]. cbn [List.map].
  now rewrite each_attr_compose, IH.
Qed.

Lemma find_each_attr_ext
    (f g : string -> list (string * gostring) -> list (string * gostring)) (sel : Node) :
  (forall tag attr, f tag attr = g tag attr) -> find_each_attr f sel = find_each_attr g sel.
Proof.
  intros Hfg. destruct sel as [d|d|tag attr kids]; try reflexivity.
  cbn [find_each_attr]. f_equal.
  induction kids as [|k r IH]; [reflexivity|]. cbn [List.map].
  now rewrite (each_attr_ext f g k Hfg), IH.
Qed.

Lemma Text_find_each_attr
    (f : string -> list (string * gostring) -> list (string * gostring)) (sel : Node) :
  Text (find_each_attr f sel) = Text sel.
Proof.
  destruct sel as [d|d|tag attr kids]; try reflexivity.
  cbn [find_each_attr]. rewrite !Text_element.
  induction kids as [|k r IH]; [reflexivity|].
  cbn [List.map]. rewrite !TextOfNodes_cons. now rewrite Text_each_attr, IH.
Qed.

(** One element after its turn in a loop of [ConvertRelativeURLs]. *)
Lemma convert_url_target (tag name : string) (baseURL : gostring) (attr : list (string * gostring)) :
  HasPrefix baseURL (runes "http://") || HasPrefix baseURL (runes "https://") = true ->
  match Attr (convert_url tag name baseURL tag attr) name with
  | Some url => url = [] \/ isAbsoluteURL url = true
  | None => True
  end.
Proof.
  intros Hb. unfold convert_url. rewrite String.eqb_refl.
  destruct (Attr attr name) as [href|] eqn:E; [|now rewrite E].
  destruct href as [|c r]; cbn [is_empty negb andb]; [rewrite E; now left|].
  destruct (isAbsoluteURL (c :: r)) eqn:Ea; cbn [negb].
  - rewrite E. now right.
  - rewrite Attr_SetAttr. right. now apply resolveURL_absolute.
Qed.

Lemma convert_url_other (tag name : string) (baseURL : gostring) (el_tag : string)
    (attr : list (string * gostring)) :
  String.eqb el_tag tag = false -> convert_url tag name baseURL el_tag attr = attr.
Proof. intros H. unfold convert_url. now rewrite H. Qed.

Lemma convert_url_idem (tag name : string) (baseURL : gostring) (el_tag : string)
    (attr : list (string * gostring)) :
  HasPrefix baseURL (runes "http://") || HasPrefix baseURL (runes "https://") = true ->
  convert_url tag name baseURL el_tag (convert_url tag name baseURL el_tag attr) =
  convert_url tag name baseURL el_tag attr.
Proof.
  intros Hb. destruct (String.eqb el_tag tag) eqn:Et.
  - apply String.eqb_eq in Et. subst el_tag.
    pose proof (convert_url_target tag name baseURL attr Hb) as H.
    unfold convert_url at 1. rewrite String.eqb_refl.
    destruct (Attr (convert_url tag name baseURL tag attr) name) as [url|]; [|reflexivity].
    destruct H as [->|H]; [reflexivity|]. rewrite H. now rewrite andb_false_r.
  - now rewrite !(convert_url_other _ _ _ _ _ Et).
Qed.

(** With a base that starts with [http://] or [https://], [ConvertRelativeURLs]
    leaves no relative target in the content: below the selection, the [href]
    of every link and the [src] of every image is missing, empty or absolute.
    The text of the content is untouched, and a second pass changes nothing. *)
Theorem ConvertRelativeURLs_absolute (sel : Node) (baseURL : gostring)
    (Hbase : HasPrefix baseURL (runes "http://") || HasPrefix baseURL (runes "https://") = true) :
  under (target_absolute "a" "href") (ConvertRelativeURLs sel baseURL) /\
  under (target_absolute "img" "src") (ConvertRelativeURLs sel baseURL) /\
  Text (ConvertRelativeURLs sel baseURL) = Text sel /\
  ConvertRelativeURLs (ConvertRelativeURLs sel baseURL) baseURL =
  ConvertRelativeURLs sel baseURL.
Proof.
  assert (Hne : is_empty baseURL = false).
  { destruct baseURL; [discriminate Hbase|reflexivity]. }
  unfold ConvertRelativeURLs. rewrite Hne. cbv zeta.
  rewrite !find_each_attr_compose.
  split; [|split; [|split]].
  - apply under_find_each_attr. intros tag attr kids Htag.
    unfold has_tag in Htag. cbn [GetTagName node_attr] in *.
    apply String.eqb_eq in Htag. subst tag.
    rewrite (convert_url_other "img" "src") by reflexivity.
    now apply convert_url_target.
  - apply under_find_each_attr. intros tag attr kids Htag.
    unfold has_tag in Htag. cbn [GetTagName node_attr] in *.
    apply String.eqb_eq in Htag. subst tag.
    rewrite (convert_url_other "a" "href" baseURL "img") by reflexivity.
    now apply convert_url_target.
  - apply Text_find_each_attr.
  - apply find_each_attr_ext. intros tag attr.
    destruct (String.eqb tag "a") eqn:Ea.
    + apply String.eqb_eq in Ea. subst tag.
      rewrite !(convert_url_other "img" "src" baseURL "a") by reflexivity.
      now apply convert_url_idem.
    + rewrite !(convert_url_other "a" "href" baseURL tag) by exact Ea.
      now apply convert_url_idem.
Qed.

Lemma ConvertRelativeURLs_absolute_witness :
  HasPrefix (runes "https://example.com/news/today.html") (runes "http://") ||
  HasPrefix (runes "https://example.com/news/today.html") (runes "https://") = true /\
  ConvertRelativeURLs
    (el "div" []
       [el "a" [("href", "/page")%string] [txt "Relative link"];
        el "img" [("src", "photo.jpg")%string] []])
    (runes "https://example.com/news/today.html") =
  el "div" []
    [el "a" [("href", "https://example.com/page")%string] [txt "Relative link"];
     el "img" [("src", "https://example.com/news/photo.jpg")%string] []] /\
  under (target_absolute "a" "href")
    (ConvertRelativeURLs
       (el "div" []
          [el "a" [("href", "/page")%string] [txt "Relative link"];
           el "img" [("src", "photo.jpg")%string] []])
       (runes "https://example.com/news/today.html")).
Proof.
  split; [reflexivity|]. split; [reflexivity|].
  apply (ConvertRelativeURLs_absolute
           (el "div" []
              [el "a" [("href", "/page")%string] [txt "Relative link"];
               el "img" [("src", "photo.jpg")%string] []])
           (runes "https://example.com/news/today.html")).
  reflexivity.
Defined.

(** ** The size attributes of an image *)

Lemma wrap64_small (z : Z) : 0 <= z < 2 ^ 63 -> wrap64 z = z.
Proof.
  intros H. unfold wrap64. rewrite Z.mod_small; lia.
Qed.

Lemma is_digit_range (c : rune) : is_digit c = true -> 0 <= c - 48 <= 9.
Proof. unfold is_digit. intros H. apply andb_true_iff in H as [H1 H2]. lia. Qed.

Lemma parseInt_loop_app (ds s : gostring) (n : Z) :
  Forall (fun c => is_digit c = true) ds ->
  parseInt_loop n (ds ++ s) = parseInt_loop (parseInt_loop n ds) s.
Proof.
  intros H. revert n. induction H as [|c ds Hc _ IH]; intros n; [reflexivity|].
  cbn [app parseInt_loop]. rewrite Hc. apply IH.
Qed.

Lemma parseInt_loop_bound (ds : gostring) (n : Z) (k : nat) :
  Forall (fun c => is_digit c = true) ds ->
  0 <= n < 10 ^ Z.of_nat k -> (k + List.length ds <= 18)%nat ->
  0 <= parseInt_loop n ds < 10 ^ Z.of_nat (k + List.length ds).
Proof.
  intros H. revert n k. induction H as [|c ds Hc _ IH]; intros n k Hn Hk.
  - cbn [parseInt_loop List.length]. now rewrite Nat.add_0_r.
  - cbn [parseInt_loop List.length] in *. rewrite Hc.
    pose proof (is_digit_range c Hc) as Hd.
    assert (Hp : 10 ^ Z.of_nat (S k) = 10 * 10 ^ Z.of_nat k)
      by (rewrite Nat2Z.inj_succ, Z.pow_succ_r; lia).
    assert (H18 : 10 ^ Z.of_nat (S k) <= 10 ^ 18)
      by (apply Z.pow_le_mono_r; lia).
    assert (H63 : 10 ^ 18 < 2 ^ 63) by reflexivity.
    rewrite wrap64_small by lia.
    replace (k + S (List.length ds))%nat with (S k + List.length ds)%nat by lia.
    apply IH; lia.
Qed.

(** [parseInt] reads the digits a text starts with and nothing else: what
    follows the first rune that is no digit does not count, a text that starts
    with no digit (a sign, a space, a letter) gives 0, and up to eighteen
    digits are read as the decimal number they write, one digit after the
    other.  A Go [int] has 64 bits, and a longer run of digits wraps around:
    the nineteen digits of 2^63 give the least [int], a negative size. *)
Theorem parseInt_leading_digits :
  (forall (ds rest : gostring) (c : rune),
     Forall (fun c => is_digit c = true) ds -> is_digit c = false ->
     parseInt (ds ++ c :: rest) = parseInt ds) /\
  (forall (rest : gostring) (c : rune), is_digit c = false -> parseInt (c :: rest) = 0) /\
  parseInt [] = 0 /\
  (forall (ds : gostring) (d : rune),
     Forall (fun c => is_digit c = true) ds -> is_digit d = true ->
     (List.length ds < 18)%nat ->
     parseInt (ds ++ [d]) = parseInt ds * 10 + (d - 48) /\
     0 <= parseInt (ds ++ [d]) < 10 ^ 18) /\
  parseInt (runes "9223372036854775808") = - 2 ^ 63.
Proof.
  split; [|split; [|split; [|split]]].
  - intros ds rest c Hds Hc. unfold parseInt. rewrite parseInt_loop_app by exact Hds.
    cbn [parseInt_loop]. now rewrite Hc.
  - intros rest c Hc. unfold parseInt. cbn [parseInt_loop]. now rewrite Hc.
  - reflexivity.
  - intros ds d Hds Hd Hlen. unfold parseInt.
    rewrite parseInt_loop_app by exact Hds. cbn [parseInt_loop]. rewrite Hd.
    pose proof (parseInt_loop_bound ds 0 0 Hds ltac:(cbn; lia) ltac:(cbn; lia)) as Hb.
    cbn [Nat.add] in Hb. pose proof (is_digit_range d Hd) as Hr.
    assert (Hp : 10 * 10 ^ Z.of_nat (List.length ds) <= 10 ^ 18).
    { rewrite <- Z.pow_succ_r by lia. apply Z.pow_le_mono_r; lia. }
    assert (H63 : 10 ^ 18 < 2 ^ 63) by reflexivity.
    rewrite wrap64_small by lia. lia.
  - vm_compute. reflexivity.
Qed.

(** ** Keywords *)

Lemma HasPrefixFold_app (s kw b : gostring) :
  HasPrefixFold s kw = true -> HasPrefixFold (s ++ b) kw = true.
Proof.
  revert s. induction kw as [|p kw IH]; intros s H; [destruct (s ++ b); reflexivity|].
  destruct s as [|c s]; [discriminate|]. cbn [app HasPrefixFold] in *.
  apply andb_true_iff in H as [Hc H]. rewrite Hc. now apply IH.
Qed.

Lemma ContainsFold_app_r (s kw b : gostring) :
  ContainsFold s kw = true -> ContainsFold (s ++ b) kw = true.
Proof.
  induction s as [|c s IH]; intros H.
  - cbn [ContainsFold] in H. rewrite orb_false_r in H.
    destruct kw; [|discriminate]. destruct b; reflexivity.
  - cbn [app ContainsFold] in *. apply orb_true_iff in H as [H|H].
    + apply (HasPrefixFold_app (c :: s) kw b) in H. cbn [app] in H.
      now rewrite H.
    + rewrite (IH H). apply orb_true_r.
Qed.

Lemma ContainsFold_app_l (a s kw : gostring) :
  ContainsFold s kw = true -> ContainsFold (a ++ s) kw = true.
Proof.
  intros H. induction a as [|c a IH]; [exact H|].
  cbn [app ContainsFold]. rewrite IH. apply orb_true_r.
Qed.

Lemma MatchKeywords_within (keywords : list string) (a s b : gostring) :
  MatchKeywords keywords s = true -> MatchKeywords keywords (a ++ s ++ b) = true.
Proof.
  unfold MatchKeywords. rewrite !List.existsb_exists.
  intros (kw & Hin & H). exists kw. split; [exact Hin|].
  now apply ContainsFold_app_l, ContainsFold_app_r.
Qed.

(** The keyword tests look for a keyword anywhere in the text, not for a
    class name: whatever is put before or after a blacklisted text, the
    result is blacklisted, and likewise for the whitelist.  The two-letter
    keyword [ad] of the blacklist is found in [headline] and in [loading]. *)
Theorem keywords_within (a s b : gostring) :
  (IsBlacklisted s = true -> IsBlacklisted (a ++ s ++ b) = true) /\
  (IsWhitelisted s = true -> IsWhitelisted (a ++ s ++ b) = true) /\
  IsBlacklisted (runes "headline") = true /\
  IsBlacklisted (runes "loading") = true.
Proof.
  split; [|split; [|split; reflexivity]].
  - unfold IsBlacklisted. destruct s as [|c s]; [discriminate|]. intros H.
    destruct (a ++ (c :: s) ++ b) eqn:E; [destruct a; discriminate E|].
    rewrite <- E. now apply MatchKeywords_within.
  - unfold IsWhitelisted. destruct s as [|c s]; [discriminate|]. intros H.
    destruct (a ++ (c :: s) ++ b) eqn:E; [destruct a; discriminate E|].
    rewrite <- E. now apply MatchKeywords_within.
Qed.

(** ** The excerpt *)

Lemma find_down_found (P : rune -> bool) (text : gostring) (lo n i : nat) :
  find_down P text lo n = Some i ->
  (lo <= i < lo + n)%nat /\ P (List.nth i text 0) = true.
Proof.
  induction n as [|k IH]; [discriminate|]. cbn [find_down].
  destruct (P (List.nth (lo + k) text 0)) eqn:E.
  - intros [= <-]. split; [lia|exact E].
  - intros H. destruct (IH H) as [Hr Hp]. split; [lia|exact Hp].
Qed.

Lemma half_le (n : nat) : (n / 2 <= n)%nat.
Proof. apply Nat.Div0.div_le_upper_bound. lia. Qed.

Lemma rlen_firstn (n : nat) (s : gostring) : rlen (List.firstn n s) <= Z.of_nat n.
Proof. unfold rlen. rewrite List.length_firstn. lia. Qed.

(** The excerpt is a beginning of the normalized text, cut after a sentence
    end, or cut before a white space or at [maxLength - 3] runes and followed
    by three dots.  A text of at most [maxLength] runes is its own excerpt.
    The cut before a white space may fall on the last rune allowed, so the
    excerpt can be two runes longer than [maxLength], never more. *)
Theorem GetExcerpt_bounds (text : gostring) (maxLength : nat) (Hmax : (3 <= maxLength)%nat) :
  rlen (GetExcerpt text maxLength) <= Z.of_nat maxLength + 2 /\
  (rlen (NormalizeText text) <= Z.of_nat maxLength ->
   GetExcerpt text maxLength = NormalizeText text) /\
  exists (k : nat) (dots : gostring),
    GetExcerpt text maxLength = List.firstn k (NormalizeText text) ++ dots /\
    (dots = [] \/ dots = runes "...") /\
    (dots = [] -> rlen (GetExcerpt text maxLength) <= Z.of_nat maxLength).
Proof.
  unfold GetExcerpt. cbv zeta. set (norm := NormalizeText text).
  destruct (List.length norm <=? maxLength)%nat eqn:E.
  - apply Nat.leb_le in E. assert (Hl : rlen norm <= Z.of_nat maxLength) by (unfold rlen; lia).
    split; [lia|]. split; [reflexivity|].
    exists (List.length norm), []. rewrite List.firstn_all, app_nil_r.
    split; [reflexivity|]. split; [now left|]. intros _. exact Hl.
  - apply Nat.leb_gt in E. split; [|split; [unfold rlen; lia|]].
    + destruct (find_down _ norm _ _) as [i|] eqn:E1.
      { apply find_down_found in E1 as [Hi _].
        pose proof (rlen_firstn (i + 1) norm) as H.
        pose proof (half_le maxLength). lia. }
      destruct (find_down IsSpace norm _ _) as [i|] eqn:E2.
      { apply find_down_found in E2 as [Hi _].
        pose proof (rlen_firstn i norm) as H. rewrite rlen_app. change (rlen (runes "...")) with 3.
        pose proof (half_le maxLength). lia. }
      pose proof (rlen_firstn (maxLength - 3) norm) as H.
      rewrite rlen_app. change (rlen (runes "...")) with 3. lia.
    + destruct (find_down _ norm _ _) as [i|] eqn:E1.
      { exists (i + 1)%nat, []. rewrite app_nil_r. split; [reflexivity|]. split; [now left|].
        intros _. apply find_down_found in E1 as [Hi _].
        pose proof (rlen_firstn (i + 1) norm) as H.
        pose proof (half_le maxLength). lia. }
      destruct (find_down IsSpace norm _ _) as [i|] eqn:E2.
      { exists i, (runes "..."). split; [reflexivity|]. split; [now right|discriminate]. }
      exists (maxLength - 3)%nat, (runes "..."). split; [reflexivity|].
      split; [now right|discriminate].
Qed.

Lemma GetExcerpt_bounds_witness :
  (3 <= 10)%nat /\
  GetExcerpt (runes "aaaaaaaaa bbbb") 10 = runes "aaaaaaaaa..." /\
  rlen (GetExcerpt (runes "aaaaaaaaa bbbb") 10) = 12 /\
  rlen (GetExcerpt (runes "aaaaaaaaa bbbb") 10) <= Z.of_nat 10 + 2.
Proof.
  split; [lia|]. split; [reflexivity|]. split; [reflexivity|].
  apply (GetExcerpt_bounds (runes "aaaaaaaaa bbbb") 10). lia.
Defined.

(** ** The clean text *)

Lemma SplitLines_not_nil (text : gostring) : SplitLines text <> [].
Proof.
  induction text as [|c r IH]; [discriminate|]. cbn [SplitLines].
  destruct (c =? 10); [discriminate|]. destruct (SplitLines r); discriminate.
Qed.

Lemma JoinLines_cons (l : gostring) (ls : list gostring) :
  ls <> [] -> JoinLines (l :: ls) = l ++ 10 :: JoinLines ls.
Proof. destruct ls; [congruence|reflexivity]. Qed.

Lemma JoinLines_SplitLines (text : gostring) : JoinLines (SplitLines text) = text.
Proof.
  induction text as [|c r IH]; [reflexivity|].
  cbn [SplitLines]. destruct (c =? 10) eqn:E.
  - apply Z.eqb_eq in E. subst c.
    rewrite JoinLines_cons by apply SplitLines_not_nil. now rewrite IH.
  - pose proof (SplitLines_not_nil r) as Hne.
    destruct (SplitLines r) as [|l ls]; [congruence|].
    rewrite <- IH. destruct ls; reflexivity.
Qed.

Lemma fields_JoinLines (f : gostring -> gostring) (ls : list gostring) :
  (forall l, Fields (f l) = Fields l) ->
  Fields (JoinLines (List.map f ls)) = Fields (JoinLines ls).
Proof.
  intros Hf. induction ls as [|l ls IH]; [reflexivity|].
  destruct ls as [|l' ls'].
  - cbn [List.map JoinLines]. apply Hf.
  - change (List.map f (l :: l' :: ls')) with (f l :: List.map f (l' :: ls')).
    rewrite !JoinLines_cons by discriminate. unfold Fields in *.
    rewrite !(fields_across_space _ _ [] 10) by reflexivity.
    now rewrite IH, Hf.
Qed.

Lemma fields_squeeze (text cur : gostring) (seen : nat) :
  (seen <> O -> cur = []) ->
  fields_from cur (squeeze_newlines seen text) = fields_from cur text.
Proof.
  revert cur seen. induction text as [|c r IH]; intros cur seen Hs; [reflexivity|].
  cbn [squeeze_newlines]. destruct (c =? 10) eqn:E.
  - apply Z.eqb_eq in E. subst c. destruct (seen <? 2)%nat eqn:E2.
    + cbn [fields_from]. change (IsSpace 10) with true. cbn iota.
      destruct cur; rewrite (IH [] (S seen)); auto.
    + apply Nat.ltb_ge in E2. rewrite (Hs ltac:(lia)).
      cbn [fields_from]. change (IsSpace 10) with true. cbn iota.
      apply IH. auto.
  - cbn [fields_from]. destruct (IsSpace c).
    + destruct cur; rewrite (IH [] 0%nat); auto; congruence.
    + apply IH. congruence.
Qed.

Lemma fields_line (l : gostring) : Fields (TrimSpace (collapse_ws l)) = Fields l.
Proof. apply fields_NormalizeText. Qed.

Lemma Fields_clean_text (text : gostring) :
  Fields (NormalizeTextPreserveNewlines text) = Fields text.
Proof.
  unfold NormalizeTextPreserveNewlines. cbv zeta. rewrite fields_TrimSpace.
  unfold Fields at 1. rewrite fields_squeeze by congruence.
  fold (Fields (JoinLines (List.map (fun line => TrimSpace (collapse_ws line)) (SplitLines text)))).
  rewrite (fields_JoinLines _ _ fields_line). now rewrite JoinLines_SplitLines.
Qed.

Lemma short_runs_less (seen : nat) (s : gostring) :
  short_runs (S seen) s = true -> short_runs seen s = true.
Proof.
  revert seen. induction s as [|c r IH]; intros seen; [reflexivity|]. cbn [short_runs].
  destruct (c =? 10); [|auto]. intros H.
  apply andb_true_iff in H as [H1 H2]. apply Nat.ltb_lt in H1.
  rewrite (IH _ H2). replace (seen <? 2)%nat with true; [reflexivity|].
  symmetry. apply Nat.ltb_lt. lia.
Qed.

Lemma short_runs_zero (seen : nat) (s : gostring) :
  short_runs seen s = true -> short_runs 0 s = true.
Proof.
  induction seen as [|k IH]; [auto|]. intros H. now apply IH, short_runs_less.
Qed.

Lemma short_runs_squeeze (seen : nat) (text : gostring) :
  short_runs seen (squeeze_newlines seen text) = true.
Proof.
  revert seen. induction text as [|c r IH]; intros seen; [reflexivity|].
  cbn [squeeze_newlines]. destruct (c =? 10) eqn:E.
  - destruct (seen <? 2)%nat eqn:E2; [|apply IH].
    cbn [short_runs]. rewrite E, E2. apply IH.
  - cbn [short_runs]. rewrite E. apply IH.
Qed.

Lemma short_runs_suffix (seen : nat) (l s : gostring) :
  short_runs seen (l ++ s) = true -> short_runs 0 s = true.
Proof.
  revert seen. induction l as [|c l IH]; intros seen H; [now apply (short_runs_zero seen)|].
  cbn [app short_runs] in H. destruct (c =? 10).
  - apply andb_true_iff in H as [_ H]. now apply (IH (S seen)).
  - now apply (IH 0%nat).
Qed.

Lemma short_runs_prefix (seen : nat) (s r : gostring) :
  short_runs seen (s ++ r) = true -> short_runs seen s = true.
Proof.
  revert seen. induction s as [|c s IH]; intros seen H; [reflexivity|].
  cbn [app short_runs] in *. destruct (c =? 10).
  - apply andb_true_iff in H as [H1 H]. rewrite H1. now apply (IH (S seen)).
  - now apply (IH 0%nat).
Qed.

Lemma short_runs_no_three (s : gostring) :
  short_runs 0 s = true -> Contains s [10; 10; 10] = false.
Proof.
  induction s as [|c r IH]; intros H; [reflexivity|].
  cbn [Contains]. apply orb_false_iff. split.
  - destruct (HasPrefix (c :: r) [10; 10; 10]) eqn:E; [|reflexivity].
    apply HasPrefix_iff in E as [t E]. rewrite E in H. discriminate H.
  - apply IH. apply (short_runs_suffix 0 [c] r H).
Qed.

Lemma Forall_squeeze (P : rune -> Prop) (seen : nat) (text : gostring) :
  Forall P text -> Forall P (squeeze_newlines seen text).
Proof.
  intros H. revert seen. induction H as [|c r Hc _ IH]; intros seen; [constructor|].
  cbn [squeeze_newlines]. destruct (c =? 10); [destruct (seen <? 2)%nat|];
    try constructor; auto.
Qed.

Lemma Forall_TrimSpace (P : rune -> Prop) (s : gostring) :
  Forall P s -> Forall P (TrimSpace s).
Proof.
  intros H. destruct (TrimSpace_split s) as (l & r & Hs & _). rewrite Hs in H.
  apply Forall_app in H as [_ H]. now apply Forall_app in H as [H _].
Qed.

Lemma Forall_JoinLines (P : rune -> Prop) (ls : list gostring) :
  P 10 -> Forall (Forall P) ls -> Forall P (JoinLines ls).
Proof.
  intros H10 H. induction H as [|l ls Hl Hls IH]; [constructor|].
  destruct ls as [|l' ls']; [exact Hl|].
  rewrite JoinLines_cons by discriminate. apply Forall_app. split; [exact Hl|].
  constructor; assumption.
Qed.

(** The clean text has no white space at either end and never three line
    feeds in a row, and the only [\s] runes left in it are the space and the
    line feed: no tab, no carriage return, no form feed. *)
Theorem NormalizeTextPreserveNewlines_shape (text : gostring) :
  Contains (NormalizeTextPreserveNewlines text) [10; 10; 10] = false /\
  TrimSpace (NormalizeTextPreserveNewlines text) = NormalizeTextPreserveNewlines text /\
  Forall (fun r => re_space r = true -> r = 32 \/ r = 10)
    (NormalizeTextPreserveNewlines text).
Proof.
  unfold NormalizeTextPreserveNewlines. cbv zeta.
  set (joined := JoinLines _). split; [|split].
  - apply short_runs_no_three.
    destruct (TrimSpace_split (squeeze_newlines 0 joined)) as (l & r & Hs & _).
    pose proof (short_runs_squeeze 0 joined) as H. rewrite Hs in H.
    apply short_runs_suffix in H. now apply short_runs_prefix in H.
  - apply TrimSpace_idem.
  - apply Forall_TrimSpace, Forall_squeeze. apply Forall_JoinLines; [now right|].
    apply List.Forall_map. apply List.Forall_forall. intros line _.
    pose proof (tidy_spaces false _ (NormalizeText_tidy line)) as H.
    unfold NormalizeText in H. eapply List.Forall_impl; [|exact H].
    cbv beta. intros r Hr Hs. left. now apply Hr.
Qed.

(** The clean text holds the words of the raw text, all of them and in their
    order: the word count of an article is the word count of the text of its
    content. *)
Theorem GetCleanText_words (sel : Node) :
  Fields (GetCleanText sel) = Fields (Text sel) /\
  CountWords (GetCleanText sel) = CountWords (Text sel).
Proof.
  unfold GetCleanText. split; [apply Fields_clean_text|].
  now rewrite !CountWords_fields, Fields_clean_text.
Qed.
